(** * Nuclide: gadget command layer and Clang outline labels

    A shallow embedding of two pieces of the repository:

    - [OutlineViewHelpers.js] (package nuclide-clang-atom): the label
      tokenizer of the C-family outline view, in particular [tokenizeType];
    - the gadget command layer [createCommands]: [deactivate], [openUri],
      [createPaneItem], [registerGadget], [replacePlaceholders],
      [showGadget] and [unregisterGadget].

    JavaScript strings are modelled as [string]; one character stands for
    one UTF-16 code unit, which is what [length], [indexOf], [lastIndexOf]
    and [substring] count. *)

From Stdlib Require Import ZArith Ascii String List Lia.
From stdpp Require Import base option list strings gmap.

Local Open Scope string_scope.
Local Open Scope list_scope.

(* ===================================================================== *)
(** ** The JavaScript string primitives used by the sources *)
(* ===================================================================== *)

Module JsString.

Local Open Scope Z_scope.

(** [s.length] *)
Definition length (s : string) : Z := Z.of_nat (String.length s).

(** Position of the first occurrence of [c] at or after offset [i]
    (the offset only shifts the result), or [-1]. *)
Fixpoint indexOfFrom (c : ascii) (s : string) (i : Z) : Z :=
  match s with
  | EmptyString => -1
  | String a s' => if Ascii.eqb a c then i else indexOfFrom c s' (i + 1)
  end.

(** [s.indexOf(c)] for a one-character search string. *)
Definition indexOf (c : ascii) (s : string) : Z := indexOfFrom c s 0.

(** Position of the last occurrence of [c], scanning left to right and
    remembering the latest hit in [acc]. *)
Fixpoint lastIndexOfFrom (c : ascii) (s : string) (i acc : Z) : Z :=
  match s with
  | EmptyString => acc
  | String a s' => lastIndexOfFrom c s' (i + 1) (if Ascii.eqb a c then i else acc)
  end.

(** [s.lastIndexOf(c)] for a one-character search string. *)
Definition lastIndexOf (c : ascii) (s : string) : Z := lastIndexOfFrom c s 0 (-1).

(** Clamping of an index argument of [substring] into [0 .. s.length]. *)
Definition clamp (s : string) (i : Z) : Z := Z.max 0 (Z.min i (length s)).

(** [s.substring(a, b)]: both ends are clamped and swapped when [a > b]. *)
Definition substring2 (s : string) (a b : Z) : string :=
  let a' := clamp s a in
  let b' := clamp s b in
  let lo := Z.min a' b' in
  let hi := Z.max a' b' in
  String.substring (Z.to_nat lo) (Z.to_nat (hi - lo)) s.

(** [s.substring(a)]: the end defaults to [s.length]. *)
Definition substring1 (s : string) (a : Z) : string := substring2 s a (length s).

(** [c] occurs in [s]. *)
Fixpoint occurs (c : ascii) (s : string) : bool :=
  match s with
  | EmptyString => false
  | String a s' => Ascii.eqb a c || occurs c s'
  end.

End JsString.

(* ===================================================================== *)
(** ** OutlineViewHelpers.js *)
(* ===================================================================== *)

Module Outline.

Import JsString.
Local Open Scope Z_scope.

(** The token constructors imported from nuclide-tokenized-text
    ([keyword], [className], [method], [param], [whitespace], [string],
    [plain]); each builds a token of its kind around a text. *)
Inductive TokenKind : Type :=
  | KKeyword | KClassName | KMethod | KParam | KWhitespace | KString | KPlain.

Record Token : Type := mkToken { kind : TokenKind; value : string }.

Definition TokenizedText : Type := list Token.

Definition keyword (s : string) : Token := mkToken KKeyword s.
Definition className (s : string) : Token := mkToken KClassName s.
Definition method (s : string) : Token := mkToken KMethod s.
Definition param (s : string) : Token := mkToken KParam s.
Definition whitespace (s : string) : Token := mkToken KWhitespace s.
Definition string_ (s : string) : Token := mkToken KString s.
Definition plain (s : string) : Token := mkToken KPlain s.

(** Collapse template arguments for long types. *)
Definition LONG_TYPE_LENGTH : Z := 50.

Definition lt_char : ascii := "<"%char.
Definition gt_char : ascii := ">"%char.

Definition tokenizeType (type : string) : TokenizedText :=
  if (LONG_TYPE_LENGTH <? length type)%Z then
    let openIndex := indexOf lt_char type in
    if negb (openIndex =? -1)%Z then
      let closeIndex := lastIndexOf gt_char type in
      if negb (closeIndex =? -1)%Z then
        [ plain (substring2 type 0 (openIndex + 1));
          string_ "...";
          plain (substring1 type closeIndex) ]
      else [plain type]
    else [plain type]
  else [plain type].

(** A source position and a source range, as the Clang service sends
    them. *)
Record Position : Type := mkPosition { line : Z; column : Z }.

Record Extent : Type := mkExtent { start : Position; end_ : Position }.

(** A node of the cursor tree sent by the Clang service.  Optional fields
    are [None] when the field is [null] or missing. *)
#[local] Unset Elimination Schemes.
Inductive ClangOutlineTree : Type :=
  mkCursor {
    name : string;
    cursor_kind : string;
    cursor_type : option string;
    params : option (list string);
    tparams : option (list string);
    extent : Extent;
    children : option (list ClangOutlineTree)
  }.
#[local] Set Elimination Schemes.

(** The editor's [Point]. *)
Record Point : Type := mkPoint { row : Z; p_column : Z }.

(** A node of the tree handed to the outline view. *)
#[local] Unset Elimination Schemes.
Inductive OutlineTree : Type :=
  mkOutlineTree {
    tokenizedText : TokenizedText;
    representativeName : string;
    startPosition : Point;
    endPosition : Point;
    o_children : list OutlineTree
  }.
#[local] Set Elimination Schemes.

Section Cursor.

(** The table [CLASS_KIND_NAMES]; its keys are the constants of
    [ClangCursorTypes], which live in another package, so the table is a
    parameter here. *)
Variable CLASS_KIND_NAMES : string -> option string.

(** [params.forEach] of [tokenizeCursor]: a separator before every
    parameter but the first. *)
Fixpoint paramTokensFrom (acc : TokenizedText) (ps : list string) : TokenizedText :=
  match ps with
  | [] => acc
  | p :: ps' =>
      let acc1 := if (0 <? Z.of_nat (List.length acc))%Z then acc ++ [plain ", "] else acc in
      paramTokensFrom (acc1 ++ [param p]) ps'
  end.

(** [tparams.forEach] of [tokenizeCursor]; the accumulator already holds
    the opening bracket, hence the test against 1. *)
Fixpoint tparamTokensFrom (acc : TokenizedText) (ps : list string) : TokenizedText :=
  match ps with
  | [] => acc
  | p :: ps' =>
      let acc1 := if (1 <? Z.of_nat (List.length acc))%Z then acc ++ [plain ", "] else acc in
      tparamTokensFrom (acc1 ++ [plain p]) ps'
  end.

Definition tokenizeCursor (cursor : ClangOutlineTree) : TokenizedText :=
  match children cursor with
  | Some _ =>
      [ keyword (default "class" (CLASS_KIND_NAMES (cursor_kind cursor)));
        whitespace " ";
        className (name cursor) ]
  | None =>
      match params cursor with
      | Some ps =>
          let paramTokens := paramTokensFrom [] ps in
          let tparamTokens :=
            match tparams cursor with
            | Some (t :: ts) => tparamTokensFrom [plain "<"] (t :: ts) ++ [plain ">"]
            | _ => []
            end in
          [method (name cursor)] ++ tparamTokens ++ [plain "("] ++ paramTokens ++ [plain ")"]
      | None =>
          match cursor_type cursor with
          | Some ty => tokenizeType ty ++ [whitespace " "; className (name cursor)]
          | None => [plain (name cursor)]
          end
      end
  end.

(** The callback of [outline.map] in [outlineFromClangOutline]; the
    recursive call on [cursor.children] is the nested [map]. *)
Fixpoint outlineFromCursor (cursor : ClangOutlineTree) : OutlineTree :=
  mkOutlineTree
    (tokenizeCursor cursor)
    (name cursor)
    (mkPoint (line (start (extent cursor))) (column (start (extent cursor))))
    (mkPoint (line (end_ (extent cursor))) (column (end_ (extent cursor))))
    (match children cursor with
     | Some cs => map outlineFromCursor cs
     | None => []
     end).

Definition outlineFromClangOutline (outline : list ClangOutlineTree) : list OutlineTree :=
  map outlineFromCursor outline.

End Cursor.

End Outline.

(* ===================================================================== *)
(** ** The gadget command layer: data model *)
(* ===================================================================== *)

Module Gadgets.

(** JavaScript values that travel through the command layer as opaque
    state blobs. *)
#[local] Unset Elimination Schemes.
Inductive JsValue : Type :=
  | JUndefined
  | JNull
  | JBool (b : bool)
  | JNum (n : Z)
  | JStr (s : string)
  | JObj (fields : list (string * JsValue)).
#[local] Set Elimination Schemes.

(** A registered gadget: a component class with static properties.  Only
    [deserializeState] is inspected by the commands; it is [Some f] exactly
    when [typeof gadget.deserializeState === 'function']. *)
Record Gadget : Type := mkGadget {
  g_gadgetId : string;
  deserializeState : option (JsValue -> JsValue)
}.

(** The actions sent to the observer ([ActionTypes]). *)
Inductive Action : Type :=
  | DEACTIVATE
  | REGISTER_GADGET (gadget : Gadget)
  | UNREGISTER_GADGET (gadgetId : string).

(** The [Rx.Observer] handed to [createCommands]: the actions it has
    received, and whether it has been completed.  A stopped observer
    ignores [onNext]. *)
Record Observer : Type := mkObserver {
  emitted : list Action;
  isStopped : bool
}.

Definition onNext (a : Action) (o : Observer) : Observer :=
  if isStopped o then o else mkObserver (emitted o ++ [a]) false.

Definition onCompleted (o : Observer) : Observer :=
  mkObserver (emitted o) true.

(** Pane items.  Every item is an object with an identity ([ident]);
    [===] and [indexOf] compare identities.  [item instanceof
    GadgetPlaceholder] holds exactly for [Placeholder] bodies. *)
Inductive ItemBody : Type :=
  | Placeholder (gadgetId : string) (rawInitialGadgetState : JsValue)
  | Component (gadget : Gadget) (initialState : JsValue) (channel : nat)
  | Other (label : string).

Record Item : Type := mkItem { ident : nat; body : ItemBody }.

Definition sameItem (a b : Item) : bool := Nat.eqb (ident a) (ident b).

Definition isPlaceholder (it : Item) : bool :=
  match body it with Placeholder _ _ => true | _ => false end.

(** The calls that mutate a pane, as they appear in a pane-mutation log. *)
Inductive PaneOp : Type :=
  | AddItem (item : Item) (index : nat)
  | DestroyItem (item : Item)
  | SetActiveItem (item : Item).

Record Pane : Type := mkPane {
  items : list Item;
  activeItem : option Item;
  log : list PaneOp
}.

(** [items.indexOf(item)] *)
Fixpoint indexOfItem (it : Item) (l : list Item) : option nat :=
  match l with
  | [] => None
  | x :: l' => if sameItem x it then Some 0%nat else S <$> indexOfItem it l'
  end.

(** [items.splice(index, 0, item)] *)
Fixpoint insertAt (index : nat) (it : Item) (l : list Item) : list Item :=
  match index, l with
  | O, _ => it :: l
  | S i, x :: l' => x :: insertAt i it l'
  | S _, [] => [it]
  end.

Definition isActiveItem (p : Pane) (it : Item) : bool :=
  match activeItem p with
  | Some a => sameItem a it
  | None => false
  end.

(** Modelled from the spec: the host's pane abstraction (section 6:
    [getItems], [addItem(item, index)], [destroyItem(item)],
    [getActiveItem], [setActiveItem(item)]), which belongs to the editor
    and not to the repository.  As in the editor, a pane holds an item at
    most once, a pane without active item activates the first item it is
    given, and destroying the active item activates a neighbour.  Every
    mutating call is appended to the pane's [log].

    [addItem(item, index)]: nothing happens when the item is in the pane
    already; otherwise it is spliced in at [index]. *)
Definition addItem (it : Item) (index : nat) (p : Pane) : Pane :=
  if existsb (sameItem it) (items p) then
    mkPane (items p) (activeItem p) (log p ++ [AddItem it index])
  else
    mkPane (insertAt index it (items p))
           (match activeItem p with Some a => Some a | None => Some it end)
           (log p ++ [AddItem it index]).

(** Modelled from the spec: [destroyItem(item)] of the host's pane.  The
    item is looked up by identity and removed; when it was the active
    item, the pane activates nothing if it was the only item, the next
    item if it was the first, and the previous item otherwise. *)
Definition destroyItem (it : Item) (p : Pane) : Pane :=
  match indexOfItem it (items p) with
  | None => mkPane (items p) (activeItem p) (log p ++ [DestroyItem it])
  | Some index =>
      let active' :=
        if isActiveItem p it then
          if Nat.eqb (length (items p)) 1 then None
          else if Nat.eqb index 0 then items p !! 1%nat
          else items p !! (index - 1)%nat
        else activeItem p in
      mkPane (delete index (items p)) active' (log p ++ [DestroyItem it])
  end.

(** Modelled from the spec: [setActiveItem(item)] of the host's pane. *)
Definition setActiveItem (it : Item) (p : Pane) : Pane :=
  mkPane (items p) (Some it) (log p ++ [SetActiveItem it]).

Definition applyOp (op : PaneOp) (p : Pane) : Pane :=
  match op with
  | AddItem it index => addItem it index p
  | DestroyItem it => destroyItem it p
  | SetActiveItem it => setActiveItem it p
  end.

(** Replaying a mutation log on a pane. *)
Definition runOps (ops : list PaneOp) (p : Pane) : Pane :=
  fold_left (fun q op => applyOp op q) ops p.

(** The per-item [Rx.Subject]: its current observers, in subscription
    order.  An observer made by [subscribe] wraps one callback; callbacks
    are identified by a number. *)
Record Subject : Type := mkSubject { observers : list nat }.

(** One invocation of a subscriber's callback, caused by the publication
    of [published] on channel [on_channel]. *)
Record Delivery : Type := mkDelivery {
  on_channel : nat;
  callback : nat;
  published : JsValue
}.

(** Everything the commands can read or change:
    - [gadgets]: [getState().get('gadgets')], owned by the reducer;
    - [observer]: the action sink;
    - [panes]: [atom.workspace.getPanes()];
    - [opened]: the requests made through [atom.workspace.open], with
      their [searchAllPanes] option;
    - [nextIdent]: the identity the next allocated item receives;
    - [subjects]: the subjects allocated so far, a channel being an index;
    - [componentState]: [component.state] of the mounted components;
    - [deliveries]: the callback invocations made so far. *)
Record World : Type := mkWorld {
  gadgets : gmap string Gadget;
  observer : Observer;
  panes : list Pane;
  opened : list (string * bool);
  nextIdent : nat;
  subjects : list Subject;
  componentState : gmap nat JsValue;
  deliveries : list Delivery
}.

Definition set_observer (o : Observer) (w : World) : World :=
  mkWorld (gadgets w) o (panes w) (opened w) (nextIdent w) (subjects w)
          (componentState w) (deliveries w).

Definition set_panes (ps : list Pane) (w : World) : World :=
  mkWorld (gadgets w) (observer w) ps (opened w) (nextIdent w) (subjects w)
          (componentState w) (deliveries w).

Definition set_opened (os : list (string * bool)) (w : World) : World :=
  mkWorld (gadgets w) (observer w) (panes w) os (nextIdent w) (subjects w)
          (componentState w) (deliveries w).

Definition set_nextIdent (n : nat) (w : World) : World :=
  mkWorld (gadgets w) (observer w) (panes w) (opened w) n (subjects w)
          (componentState w) (deliveries w).

Definition set_subjects (ss : list Subject) (w : World) : World :=
  mkWorld (gadgets w) (observer w) (panes w) (opened w) (nextIdent w) ss
          (componentState w) (deliveries w).

Definition set_deliveries (ds : list Delivery) (w : World) : World :=
  mkWorld (gadgets w) (observer w) (panes w) (opened w) (nextIdent w)
          (subjects w) (componentState w) ds.

(** *** Commands as state transformers that may throw *)

(** [LifecycleViolation] is the error the specification names for a
    command used after deactivation. *)
Inductive Error : Type :=
  | TypeError (msg : string)
  | LifecycleViolation.

Inductive Result (A : Type) : Type :=
  | Ok (a : A) (w : World)
  | Throw (e : Error) (w : World).
Arguments Ok {A} a w.
Arguments Throw {A} e w.

Definition Cmd (A : Type) : Type := World -> Result A.

Definition ret {A} (a : A) : Cmd A := fun w => Ok a w.

Definition bind {A B} (m : Cmd A) (f : A -> Cmd B) : Cmd B :=
  fun w => match m w with
           | Ok a w' => f a w'
           | Throw e w' => Throw e w'
           end.

Definition throw {A} (e : Error) : Cmd A := fun w => Throw e w.

Definition getWorld : Cmd World := fun w => Ok w w.

Definition modify (f : World -> World) : Cmd unit := fun w => Ok tt (f w).

Declare Scope cmd_scope.
Delimit Scope cmd_scope with cmd.
Notation "'let*' x ':=' m 'in' k" := (bind m (fun x => k))
  (at level 10, x name, m at level 100, k at level 200) : cmd_scope.
Notation "m ';;' k" := (bind m (fun _ => k))
  (at level 100, k at level 200, right associativity) : cmd_scope.
Local Open Scope cmd_scope.

(** [list.forEach(f)] for an effectful [f]. *)
Fixpoint forEach {A} (l : list A) (f : A -> Cmd unit) : Cmd unit :=
  match l with
  | [] => ret tt
  | x :: l' => f x ;; forEach l' f
  end.

(** *** Pane methods on the [k]-th pane of the workspace *)

Definition paneGetItems (k : nat) : Cmd (list Item) :=
  fun w => Ok (match panes w !! k with Some p => items p | None => [] end) w.

Definition paneIsActive (k : nat) (it : Item) : Cmd bool :=
  fun w => Ok (match panes w !! k with Some p => isActiveItem p it | None => false end) w.

Definition onPane (k : nat) (f : Pane -> Pane) : Cmd unit :=
  modify (fun w => set_panes (alter f k (panes w)) w).

(** [pane.addItem(realItem, index)]: the pane refuses a value that is not
    an object, and otherwise returns the item it was given. *)
Definition paneAddItem (k : nat) (realItem : option Item) (index : nat) : Cmd Item :=
  match realItem with
  | Some it => onPane k (addItem it index) ;; ret it
  | None => throw (TypeError "Pane items must be objects")
  end.

Definition paneDestroyItem (k : nat) (it : Item) : Cmd unit :=
  onPane k (destroyItem it).

Definition paneSetActiveItem (k : nat) (it : Item) : Cmd unit :=
  onPane k (setActiveItem it).

(** *** The mini pub-sub system of a component *)

(** [new Rx.Subject()] *)
Definition newSubject : Cmd nat :=
  fun w => Ok (length (subjects w)) (set_subjects (subjects w ++ [mkSubject []]) w).

(** [state$.forEach(() => cb())]: one more observer, which calls [cb]
    whatever the published value. *)
Definition Subject_forEach (ch cb : nat) : Cmd unit :=
  modify (fun w =>
    set_subjects (alter (fun s => mkSubject (observers s ++ [cb])) ch (subjects w)) w).

(** [state$.onNext(v)]: every current observer is called, in order. *)
Definition Subject_onNext (ch : nat) (v : JsValue) : Cmd unit :=
  modify (fun w =>
    match subjects w !! ch with
    | Some s => set_deliveries (deliveries w ++ map (fun cb => mkDelivery ch cb v) (observers s)) w
    | None => w
    end).

(** The [notify] closure of the component [component] with subject [ch]:
    [() => state$.onNext(component.state)]. *)
Definition notify (ch component : nat) : Cmd unit :=
  let* w := getWorld in
  Subject_onNext ch (default JUndefined (componentState w !! component)).

(** The [subscribe] closure: [cb => state$.forEach(() => cb())]. *)
Definition subscribe (ch cb : nat) : Cmd unit := Subject_forEach ch cb.

(** Modelled from the spec: [createComponentItem], which mounts the
    element and "returns the instantiated pane item"; the props
    [notify] and [subscribe] of the element are the closures over the
    subject [ch]. *)
Definition createComponentItem (gadget : Gadget) (initialState : JsValue) (ch : nat) : Cmd Item :=
  fun w => Ok (mkItem (nextIdent w) (Component gadget initialState ch))
              (set_nextIdent (S (nextIdent w)) w).

(** *** The commands of [createCommands] *)

Definition deactivate : Cmd unit :=
  modify (fun w => set_observer (onNext DEACTIVATE (observer w)) w) ;;
  modify (fun w => set_observer (onCompleted (observer w)) w).

(** An omitted [initialState] is [JUndefined]. *)
Definition createPaneItem (gadgetId : string) (initialState : JsValue) : Cmd (option Item) :=
  let* w := getWorld in
  match gadgets w !! gadgetId with
  | None => ret None
  | Some gadget =>
      let* state := newSubject in
      let* component := createComponentItem gadget initialState state in
      ret (Some component)
  end.

Definition unregisterGadget (gadgetId : string) : Cmd unit :=
  modify (fun w => set_observer (onNext (UNREGISTER_GADGET gadgetId) (observer w)) w).

(** The body of the [for] loop of [replacePlaceholders] for the item found
    at [index] of the snapshot, in pane [k].  Past [addItem], which throws
    on a missing item, [realItem] is the item that was added. *)
Definition replaceOne (k index : nat) (item : Item) : Cmd unit :=
  match body item with
  | Placeholder gadgetId rawInitialGadgetState =>
      let* w := getWorld in
      match gadgets w !! gadgetId with
      | None => ret tt
      | Some gadget =>
          let initialState :=
            match deserializeState gadget with
            | Some f => f rawInitialGadgetState
            | None => rawInitialGadgetState
            end in
          let* realItem := createPaneItem gadgetId initialState in
          let* isActive := paneIsActive k item in
          let* added := paneAddItem k realItem (index + 1) in
          paneDestroyItem k item ;;
          if isActive then paneSetActiveItem k added else ret tt
      end
  | _ => ret tt
  end.

(** The [for] loop, [index] running from [n - 1] down to [0] over the
    snapshot [items]. *)
Fixpoint replaceLoop (k : nat) (items : list Item) (n : nat) : Cmd unit :=
  match n with
  | O => ret tt
  | S index =>
      match items !! index with
      | Some item => replaceOne k index item
      | None => ret tt
      end ;;
      replaceLoop k items index
  end.

Definition replaceInPane (k : nat) : Cmd unit :=
  let* items := paneGetItems k in
  replaceLoop k items (length items).

Definition replacePlaceholders : Cmd unit :=
  let* w := getWorld in
  forEach (seq 0 (length (panes w))) replaceInPane.

(** What [GadgetUri.parse] returns for a gadget URI. *)
Record ParsedUri : Type := mkParsedUri { gadgetId : string }.

Section Codec.

(** [GadgetUri] and [wrapGadget] are modules of the package that the
    commands only call; they are parameters here. *)
Variable GadgetUri_parse : string -> option ParsedUri.
Variable GadgetUri_format : ParsedUri -> string.
Variable wrapGadget : Gadget -> Gadget.

Definition openUri (uri : string) : Cmd (option Item) :=
  match GadgetUri_parse uri with
  | None => ret None
  | Some parsed => createPaneItem (gadgetId parsed) JUndefined
  end.

Definition registerGadget (gadget : Gadget) : Cmd unit :=
  let gadget := wrapGadget gadget in
  modify (fun w => set_observer (onNext (REGISTER_GADGET gadget) (observer w)) w).

Definition showGadget (gadgetId : string) : Cmd unit :=
  let uri := GadgetUri_format (mkParsedUri gadgetId) in
  modify (fun w => set_opened (opened w ++ [(uri, true)]) w).

(** The calls a holder of the commands object can make. *)
Inductive Command : Type :=
  | CDeactivate
  | COpenUri (uri : string)
  | CCreatePaneItem (gadgetId : string) (initialState : JsValue)
  | CRegisterGadget (gadget : Gadget)
  | CReplacePlaceholders
  | CShowGadget (gadgetId : string)
  | CUnregisterGadget (gadgetId : string).

(** Running a call; a command without return value yields [None]. *)
Definition run (c : Command) : Cmd (option Item) :=
  match c with
  | CDeactivate => deactivate ;; ret None
  | COpenUri uri => openUri uri
  | CCreatePaneItem gadgetId initialState => createPaneItem gadgetId initialState
  | CRegisterGadget gadget => registerGadget gadget ;; ret None
  | CReplacePlaceholders => replacePlaceholders ;; ret None
  | CShowGadget gadgetId => showGadget gadgetId ;; ret None
  | CUnregisterGadget gadgetId => unregisterGadget gadgetId ;; ret None
  end.

End Codec.

End Gadgets.

(* ===================================================================== *)
(** ** Vocabulary of the properties of the command layer *)
(* ===================================================================== *)

Module GadgetProps.

Import Gadgets.

(** A placeholder is resolvable when its gadget is registered; any other
    item is settled: [replacePlaceholders] has nothing to do for it. *)
Definition settled (reg : gmap string Gadget) (it : Item) : Prop :=
  match body it with
  | Placeholder gid _ => reg !! gid = None
  | _ => True
  end.

(** What [replacePlaceholders] is expected to leave in the slot of an
    item [a]: a component of the registered gadget for a resolvable
    placeholder, and [a] itself otherwise. *)
Definition resolves (reg : gmap string Gadget) (a b : Item) : Prop :=
  match body a with
  | Placeholder gid raw =>
      match reg !! gid with
      | Some g =>
          exists ch,
            body b = Component g (match deserializeState g with
                                  | Some f => f raw
                                  | None => raw
                                  end) ch
      | None => b = a
      end
  | _ => b = a
  end.

(** A pane holds an object at most once, and objects that exist already
    have an identity below the next one to be allocated. *)
Definition wfPane (bound : nat) (q : Pane) : Prop :=
  NoDup (ident <$> items q) /\ Forall (fun it => ident it < bound) (items q).

Definition wfWorld (w : World) : Prop :=
  forall k q, panes w !! k = Some q -> wfPane (nextIdent w) q.

(** The three pane calls that replace [item], found at [index], by
    [real]. *)
Definition swapIn (item real : Item) (index : nat) (q : Pane) : Pane :=
  let isActive := isActiveItem q item in
  let q1 := destroyItem item (addItem real (index + 1) q) in
  if isActive then setActiveItem real q1 else q1.

Definition swapOps (item real : Item) (index : nat) (isActive : bool) : list PaneOp :=
  [AddItem real (index + 1); DestroyItem item] ++
  (if isActive then [SetActiveItem real] else []).

(** The loop of [replacePlaceholders] seen from one pane: the state is
    the pane and the number [m] of items created so far; the next item
    gets identity [nid + m] and subject [nch + m]. *)
Definition paneStep (reg : gmap string Gadget) (nid nch index : nat) (item : Item)
    (st : Pane * nat) : Pane * nat :=
  match body item with
  | Placeholder gid raw =>
      match reg !! gid with
      | None => st
      | Some g =>
          let init := match deserializeState g with
                      | Some f => f raw
                      | None => raw
                      end in
          let real := mkItem (nid + st.2) (Component g init (nch + st.2)) in
          (swapIn item real index st.1, S st.2)
      end
  | _ => st
  end.

Fixpoint paneLoop (reg : gmap string Gadget) (nid nch : nat) (snapshot : list Item)
    (n : nat) (st : Pane * nat) : Pane * nat :=
  match n with
  | O => st
  | S index =>
      paneLoop reg nid nch snapshot index
        (match snapshot !! index with
         | Some item => paneStep reg nid nch index item st
         | None => st
         end)
  end.

(** The world after pane [k] became [st.1] and [st.2] items, each with
    its subject, were allocated. *)
Definition install (k : nat) (st : Pane * nat) (w : World) : World :=
  mkWorld (gadgets w) (observer w) (<[k := st.1]> (panes w)) (opened w)
          (nextIdent w + st.2) (subjects w ++ replicate st.2 (mkSubject []))
          (componentState w) (deliveries w).

(** The state of the loop when the indices below [n] of the snapshot are
    still to be visited: the pane starts with these items, followed by
    [tl], and is well formed for the identities allocated so far. *)
Definition loopInv (nid : nat) (snapshot : list Item) (n : nat) (tl : list Item)
    (st : Pane * nat) : Prop :=
  items st.1 = take n snapshot ++ tl /\ wfPane (nid + st.2) st.1.

(** The world after the panes [ks] were visited in turn. *)
Fixpoint afterPanes (ks : list nat) (w : World) : World :=
  match ks with
  | [] => w
  | k :: ks' =>
      afterPanes ks'
        (match panes w !! k with
         | Some q =>
             install k (paneLoop (gadgets w) (nextIdent w) (length (subjects w))
                                 (items q) (length (items q)) (q, 0)) w
         | None => w
         end)
  end.

(** A mutation log made of replacements only: each one adds the real
    item, then destroys the placeholder, then possibly activates the real
    item. *)
Inductive swapTrace : list PaneOp -> Prop :=
  | swapTrace_nil : swapTrace []
  | swapTrace_cons (item real : Item) (index : nat) (isActive : bool) (ops : list PaneOp) :
      swapTrace ops -> swapTrace (swapOps item real index isActive ++ ops).

(** While [ops] is replayed on [q], the pane never has fewer than [n]
    items. *)
Definition neverBelow (n : nat) (ops : list PaneOp) (q : Pane) : Prop :=
  forall j, n <= length (items (runOps (take j ops) q)).

(** What a command did after the observer was completed:
    nothing, a lifecycle error, or something else. *)
Definition noOp {A} (r : Result A) (w : World) : Prop :=
  exists a, r = Ok a w.

Definition lifecycleError {A} (r : Result A) : Prop :=
  exists w', r = Throw LifecycleViolation w'.

(** The policy the specification asks for: once [deactivate] has run,
    any other command does nothing or signals a lifecycle error. *)
Definition guardedAfterDeactivate
    (parse : string -> option ParsedUri) (format : ParsedUri -> string)
    (wrap : Gadget -> Gadget) : Prop :=
  forall (w w1 : World) (c : Command),
    c <> CDeactivate ->
    deactivate w = Ok tt w1 ->
    noOp (run parse format wrap c w1) w1 \/
    lifecycleError (run parse format wrap c w1).

(** The commands that send nothing to the observer. *)
Definition silent (c : Command) : bool :=
  match c with
  | COpenUri _ | CCreatePaneItem _ _ | CReplacePlaceholders | CShowGadget _ => true
  | CDeactivate | CRegisterGadget _ | CUnregisterGadget _ => false
  end.

(** The same outcome, seen with another observer. *)
Definition withObserver {A} (o : Observer) (r : Result A) : Result A :=
  match r with
  | Ok a w => Ok a (set_observer o w)
  | Throw e w => Throw e (set_observer o w)
  end.

(** Running a list of calls in order, stopping at the first that throws. *)
Fixpoint runAll (parse : string -> option ParsedUri) (format : ParsedUri -> string)
    (wrap : Gadget -> Gadget) (cs : list Command) : Cmd unit :=
  match cs with
  | [] => ret tt
  | c :: cs' => bind (run parse format wrap c) (fun _ => runAll parse format wrap cs')
  end.

(** The actions a list of calls sends to a live observer: one per
    [registerGadget] and [unregisterGadget], and [DEACTIVATE] for the
    first [deactivate], after which nothing is sent. *)
Fixpoint actionsOf (wrap : Gadget -> Gadget) (cs : list Command) : list Action :=
  match cs with
  | [] => []
  | CDeactivate :: _ => [DEACTIVATE]
  | CRegisterGadget g :: cs' => REGISTER_GADGET (wrap g) :: actionsOf wrap cs'
  | CUnregisterGadget gid :: cs' => UNREGISTER_GADGET gid :: actionsOf wrap cs'
  | _ :: cs' => actionsOf wrap cs'
  end.

(** A placeholder whose gadget is registered. *)
Definition isResolvable (reg : gmap string Gadget) (it : Item) : bool :=
  match body it with
  | Placeholder gid _ => bool_decide (is_Some (reg !! gid))
  | _ => false
  end.

(** The number of resolvable placeholders of a pane. *)
Definition resolvableCount (reg : gmap string Gadget) (q : Pane) : nat :=
  length (filter (fun it => isResolvable reg it = true) (items q)).

End GadgetProps.

(* ===================================================================== *)
(** ** Vocabulary of the properties of the outline *)
(* ===================================================================== *)

Module OutlineProps.

Import Outline.

(** [sep] between any two neighbours of [l]. *)
Fixpoint intersperse {A} (sep : A) (l : list A) : list A :=
  match l with
  | [] => []
  | x :: l' =>
      match l' with
      | [] => [x]
      | _ :: _ => x :: sep :: intersperse sep l'
      end
  end.

(** The text a label shows: the texts of its tokens, one after another. *)
Definition textOf (t : TokenizedText) : string :=
  fold_right (fun tok acc => value tok +:+ acc) "" t.

(** Name and range of every node of a cursor tree, parents before
    children, children in order. *)
Fixpoint cursorEntries (c : ClangOutlineTree) : list (string * Z * Z * Z * Z) :=
  (name c, line (start (extent c)), column (start (extent c)),
   line (end_ (extent c)), column (end_ (extent c))) ::
  match children c with
  | Some cs => flat_map cursorEntries cs
  | None => []
  end.

Fixpoint outlineEntries (t : OutlineTree) : list (string * Z * Z * Z * Z) :=
  (representativeName t, row (startPosition t), p_column (startPosition t),
   row (endPosition t), p_column (endPosition t)) ::
  flat_map outlineEntries (o_children t).

(** Every node of an outline tree, parents before children. *)
Fixpoint outlineNodes (t : OutlineTree) : list OutlineTree :=
  t :: flat_map outlineNodes (o_children t).

End OutlineProps.

(* ===================================================================== *)
(** ** Sample data *)
(* ===================================================================== *)

Module Samples.

Import Gadgets.

(** A gadget with a [deserializeState] hook and one without. *)
Definition counter : Gadget :=
  mkGadget "counter" (Some (fun raw => JObj [("count", raw)])).

Definition clock : Gadget := mkGadget "clock" None.

Definition registry : gmap string Gadget :=
  <["clock" := clock]> (<["counter" := counter]> ∅).

(** A restored pane: a placeholder for the counter, then an editor. *)
Definition itemA : Item := mkItem 0 (Placeholder "counter" (JNum 7)).
Definition itemB : Item := mkItem 1 (Other "editor").
Definition itemC : Item := mkItem 2 (Placeholder "clock" JNull).
Definition itemD : Item := mkItem 3 (Placeholder "missing" JNull).

Definition pane0 : Pane := mkPane [itemA; itemB] (Some itemA) [].
Definition pane1 : Pane := mkPane [itemC; itemD] (Some itemD) [].

Definition world0 : World :=
  mkWorld registry (mkObserver [] false) [pane0; pane1] [] 4 [] ∅ [].

(** The same workspace before any gadget is registered. *)
Definition worldUnregistered : World :=
  mkWorld ∅ (mkObserver [] false) [pane0; pane1] [] 4 [] ∅ [].

(** A codec for gadget URIs of the shape [gadget:<id>], and a wrapper
    that leaves the gadget as it is; they stand for the parameters of
    the commands in the examples. *)
Definition sampleParse (uri : string) : option ParsedUri :=
  if String.prefix "gadget:" uri
  then Some (mkParsedUri (String.substring 7 (String.length uri - 7) uri))
  else None.

Definition sampleFormat (p : ParsedUri) : string := "gadget:" +:+ gadgetId p.

Definition sampleWrap (g : Gadget) : Gadget := g.

(** The kind table restricted to two kinds, and three cursors: a
    function template, a struct with a field, and the field. *)
Definition sampleKinds (kind : string) : option string :=
  if String.eqb kind "STRUCT_DECL" then Some "struct"
  else if String.eqb kind "NAMESPACE" then Some "namespace"
  else None.

Definition cursorSwap : Outline.ClangOutlineTree :=
  Outline.mkCursor "swap" "FUNCTION_TEMPLATE" None (Some ["a"; "b"]) (Some ["T"; "U"])
    (Outline.mkExtent (Outline.mkPosition 3 0) (Outline.mkPosition 5 1)) None.

Definition cursorField : Outline.ClangOutlineTree :=
  Outline.mkCursor "size" "FIELD_DECL" (Some "std::size_t") None None
    (Outline.mkExtent (Outline.mkPosition 8 2) (Outline.mkPosition 8 18)) None.

Definition cursorStruct : Outline.ClangOutlineTree :=
  Outline.mkCursor "Buffer" "STRUCT_DECL" None None None
    (Outline.mkExtent (Outline.mkPosition 7 0) (Outline.mkPosition 9 1))
    (Some [cursorField]).

End Samples.

(* ===================================================================== *)
(** ** Facts about the string primitives *)
(* ===================================================================== *)

Module JsStringFacts.

Import JsString.
Local Open Scope Z_scope.

Lemma indexOfFrom_absent (c : ascii) (s : string) (i : Z) :
  occurs c s = false -> indexOfFrom c s i = -1.
Proof.
  revert i. induction s as [|a s IH]; intros i H; simpl in *; [reflexivity|].
  apply orb_false_iff in H as [Ha Hs]. rewrite Ha. now apply IH.
Qed.

Lemma indexOfFrom_first (c : ascii) (pre rest : string) (i : Z) :
  occurs c pre = false ->
  indexOfFrom c (pre +:+ String c rest) i = i + Z.of_nat (String.length pre).
Proof.
  revert i. induction pre as [|a pre IH]; intros i H; simpl in *.
  - rewrite Ascii.eqb_refl. lia.
  - apply orb_false_iff in H as [Ha Hs]. rewrite Ha, IH by assumption. lia.
Qed.

Lemma indexOfFrom_present (c : ascii) (s : string) (i : Z) :
  occurs c s = true -> i <= indexOfFrom c s i.
Proof.
  revert i. induction s as [|a s IH]; intros i H; simpl in *; [discriminate|].
  destruct (Ascii.eqb a c); simpl in H; [lia|].
  specialize (IH (i + 1) H). lia.
Qed.

Lemma lastIndexOfFrom_absent (c : ascii) (s : string) (i acc : Z) :
  occurs c s = false -> lastIndexOfFrom c s i acc = acc.
Proof.
  revert i acc. induction s as [|a s IH]; intros i acc H; simpl in *; [reflexivity|].
  apply orb_false_iff in H as [Ha Hs]. rewrite Ha. now apply IH.
Qed.

Lemma lastIndexOfFrom_app (c : ascii) (y s : string) (i acc : Z) :
  lastIndexOfFrom c (y +:+ s) i acc =
  lastIndexOfFrom c s (i + Z.of_nat (String.length y)) (lastIndexOfFrom c y i acc).
Proof.
  revert i acc. induction y as [|a y IH]; intros i acc; simpl.
  - f_equal. lia.
  - rewrite IH. f_equal. lia.
Qed.

Lemma lastIndexOfFrom_last (c : ascii) (y suf : string) (i acc : Z) :
  occurs c suf = false ->
  lastIndexOfFrom c (y +:+ String c suf) i acc = i + Z.of_nat (String.length y).
Proof.
  intros H. rewrite lastIndexOfFrom_app. simpl. rewrite Ascii.eqb_refl.
  now apply lastIndexOfFrom_absent.
Qed.

Lemma append_cons (x : ascii) (a b : string) :
  String x a +:+ b = String x (a +:+ b).
Proof. reflexivity. Qed.

Lemma length_append (a b : string) :
  String.length (a +:+ b) = (String.length a + String.length b)%nat.
Proof.
  induction a as [|x a IH]; [reflexivity|].
  rewrite append_cons. simpl. now rewrite IH.
Qed.

Lemma substring_whole (s : string) : String.substring 0 (String.length s) s = s.
Proof. induction s as [|a s IH]; simpl; [reflexivity|]. now rewrite IH. Qed.

Lemma substring_prefix (a b : string) :
  String.substring 0 (String.length a) (a +:+ b) = a.
Proof.
  induction a as [|x a IH].
  - destruct b; reflexivity.
  - rewrite append_cons. simpl. now rewrite IH.
Qed.

Lemma substring_suffix (a b : string) :
  String.substring (String.length a) (String.length b) (a +:+ b) = b.
Proof.
  induction a as [|x a IH].
  - apply substring_whole.
  - rewrite append_cons. simpl. exact IH.
Qed.

Lemma append_assoc (a b c : string) : (a +:+ b) +:+ c = a +:+ (b +:+ c).
Proof.
  induction a as [|x a IH]; [reflexivity|].
  rewrite !append_cons. now rewrite IH.
Qed.

(** [type.substring(0, n)], [n] the length of a prefix of [type]. *)
Lemma substring2_prefix (a b : string) :
  substring2 (a +:+ b) 0 (Z.of_nat (String.length a)) = a.
Proof.
  unfold substring2, clamp, length. rewrite length_append.
  replace (Z.min _ _) with 0 by lia.
  replace (Z.max _ _ - 0) with (Z.of_nat (String.length a)) by lia.
  rewrite Nat2Z.id. apply substring_prefix.
Qed.

(** [type.substring(n)], [n] the length of a prefix of [type]. *)
Lemma substring1_suffix (a b : string) :
  substring1 (a +:+ b) (Z.of_nat (String.length a)) = b.
Proof.
  unfold substring1, substring2, clamp, length. rewrite length_append.
  replace (Z.min (Z.max _ _) _) with (Z.of_nat (String.length a)) by lia.
  replace (Z.max (Z.max _ _) _ - _) with (Z.of_nat (String.length b)) by lia.
  rewrite !Nat2Z.id. apply substring_suffix.
Qed.

End JsStringFacts.

(* ===================================================================== *)
(** ** The type labels of the outline view *)
(* ===================================================================== *)

Module OutlineFacts.

Import JsString JsStringFacts Outline.

Lemma indexOf_absent (c : ascii) (s : string) :
  occurs c s = false -> indexOf c s = (-1)%Z.
Proof. apply indexOfFrom_absent. Qed.

Lemma indexOf_present (c : ascii) (s : string) :
  occurs c s = true -> (indexOf c s =? -1)%Z = false.
Proof.
  intros H. apply Z.eqb_neq. pose proof (indexOfFrom_present c s 0 H).
  unfold indexOf. lia.
Qed.

Lemma lastIndexOf_absent (c : ascii) (s : string) :
  occurs c s = false -> lastIndexOf c s = (-1)%Z.
Proof. apply lastIndexOfFrom_absent. Qed.

(** A type that is not longer than the threshold is one plain token. *)
Lemma tokenizeType_short (type : string) :
  (String.length type <= 50)%nat -> tokenizeType type = [plain type].
Proof.
  intros H. unfold tokenizeType, LONG_TYPE_LENGTH, length.
  destruct (Z.ltb_spec 50 (Z.of_nat (String.length type))); [lia | reflexivity].
Qed.

(** The three tokens of a long type, from the first ['<'] and the last
    ['>'] of the type. *)
Lemma tokenizeType_long (type pre x y suf : string) :
  (50 < String.length type)%nat ->
  type = pre +:+ String lt_char x -> occurs lt_char pre = false ->
  type = y +:+ String gt_char suf -> occurs gt_char suf = false ->
  tokenizeType type =
    [plain (pre +:+ "<"); string_ "..."; plain (String gt_char suf)].
Proof.
  intros Hlen Hopen Hpre Hclose Hsuf.
  unfold tokenizeType, LONG_TYPE_LENGTH, length.
  destruct (Z.ltb_spec 50 (Z.of_nat (String.length type))) as [_|]; [|lia].
  assert (Hi : indexOf lt_char type = Z.of_nat (String.length pre)).
  { unfold indexOf. rewrite Hopen, indexOfFrom_first by assumption. lia. }
  assert (Hj : lastIndexOf gt_char type = Z.of_nat (String.length y)).
  { unfold lastIndexOf. rewrite Hclose, lastIndexOfFrom_last by assumption. lia. }
  rewrite Hi, Hj.
  destruct (Z.eqb_spec (Z.of_nat (String.length pre)) (-1)); [lia|].
  destruct (Z.eqb_spec (Z.of_nat (String.length y)) (-1)); [lia|].
  simpl negb. cbv iota.
  f_equal; [|f_equal].
  - f_equal. rewrite Hopen.
    replace (pre +:+ String lt_char x) with ((pre +:+ "<") +:+ x)
      by (rewrite append_assoc; reflexivity).
    replace (Z.of_nat (String.length pre) + 1)%Z
      with (Z.of_nat (String.length (pre +:+ "<")))
      by (rewrite length_append; simpl; lia).
    apply substring2_prefix.
  - f_equal. f_equal. rewrite Hclose. apply substring1_suffix.
Qed.

(** C9: a type of more than 50 characters that holds a template argument
    list is rendered as three tokens: the text up to and including the
    first ['<'], unchanged; the ellipsis ["..."]; and the text from the
    last ['>'] to the end, unchanged.  A type of at most 50 characters is
    rendered as one plain token holding the whole type. *)
Theorem tokenizeType_collapses_template (type : string) :
  ((String.length type <= 50)%nat -> tokenizeType type = [plain type]) /\
  (forall pre x y suf : string,
     (50 < String.length type)%nat ->
     type = pre +:+ String lt_char x -> occurs lt_char pre = false ->
     type = y +:+ String gt_char suf -> occurs gt_char suf = false ->
     tokenizeType type =
       [plain (pre +:+ "<"); string_ "..."; plain (String gt_char suf)]).
Proof.
  split.
  - apply tokenizeType_short.
  - intros pre x y suf. apply tokenizeType_long.
Qed.

Lemma tokenizeType_collapses_template_witness :
  tokenizeType "std::map<std::string, std::vector<std::pair<int, int>>>::iterator" =
    [plain "std::map<"; string_ "..."; plain ">::iterator"] /\
  tokenizeType "std::vector<int>" = [plain "std::vector<int>"].
Proof.
  split.
  - apply (proj2 (tokenizeType_collapses_template
                    "std::map<std::string, std::vector<std::pair<int, int>>>::iterator")
                 "std::map" "std::string, std::vector<std::pair<int, int>>>::iterator"
                 "std::map<std::string, std::vector<std::pair<int, int>>" "::iterator").
    + vm_compute. lia.
    + reflexivity.
    + reflexivity.
    + reflexivity.
    + reflexivity.
  - apply (proj1 (tokenizeType_collapses_template "std::vector<int>")).
    vm_compute. lia.
Defined.

(** C10: a type of more than 50 characters without ['<'], or with a
    ['<'] but without ['>'], is not elided: it is rendered as one plain
    token holding the whole type. *)
Theorem tokenizeType_needs_both_brackets (type : string) :
  (50 < String.length type)%nat ->
  occurs lt_char type = false \/
  (occurs lt_char type = true /\ occurs gt_char type = false) ->
  tokenizeType type = [plain type].
Proof.
  intros _ [Hno | [Hlt Hgt]]; unfold tokenizeType.
  - rewrite (indexOf_absent _ _ Hno). simpl.
    destruct (LONG_TYPE_LENGTH <? length type)%Z; reflexivity.
  - rewrite (indexOf_present _ _ Hlt), (lastIndexOf_absent _ _ Hgt). simpl.
    destruct (LONG_TYPE_LENGTH <? length type)%Z; reflexivity.
Qed.

Lemma tokenizeType_needs_both_brackets_witness :
  tokenizeType "unsigned long long int const volatile * const * const restrict" =
    [plain "unsigned long long int const volatile * const * const restrict"] /\
  tokenizeType "std::basic_string<char, std::char_traits, std::allocator" =
    [plain "std::basic_string<char, std::char_traits, std::allocator"].
Proof.
  split.
  - apply tokenizeType_needs_both_brackets.
    + vm_compute. lia.
    + left. reflexivity.
  - apply tokenizeType_needs_both_brackets.
    + vm_compute. lia.
    + right. split; reflexivity.
Defined.

(** The label of a cursor that has a type and neither children nor
    parameters: the tokens of the type, a space, and the name. *)
Lemma tokenizeCursor_typed (tbl : string -> option string) (cursor : ClangOutlineTree)
    (ty : string) :
  children cursor = None -> params cursor = None -> cursor_type cursor = Some ty ->
  tokenizeCursor tbl cursor = tokenizeType ty ++ [whitespace " "; className (name cursor)].
Proof. intros Hc Hp Ht. unfold tokenizeCursor. now rewrite Hc, Hp, Ht. Qed.

End OutlineFacts.

(* ===================================================================== *)
(** ** Panes *)
(* ===================================================================== *)

Module PaneFacts.

Import Gadgets GadgetProps.

(** Splits a goal along its written conjunctions, leaving folded
    predicates such as [wfPane] whole. *)
Ltac conjs := repeat match goal with |- _ /\ _ => split end.

Lemma sameItem_true (a b : Item) : sameItem a b = true <-> ident a = ident b.
Proof. unfold sameItem. apply Nat.eqb_eq. Qed.

Lemma sameItem_false (a b : Item) : sameItem a b = false <-> ident a <> ident b.
Proof. unfold sameItem. apply Nat.eqb_neq. Qed.

Lemma existsb_sameItem_absent (x : Item) (l : list Item) :
  ident x ∉ ident <$> l -> existsb (sameItem x) l = false.
Proof.
  induction l as [|y l IH]; simpl; intros H; [reflexivity|].
  apply not_elem_of_cons in H as [Hxy Hl].
  rewrite IH by assumption. rewrite orb_false_r.
  now apply sameItem_false.
Qed.

Lemma insertAt_middle (pre tl : list Item) (x : Item) :
  insertAt (length pre) x (pre ++ tl) = pre ++ x :: tl.
Proof. induction pre as [|y pre IH]; simpl; [reflexivity|]. now rewrite IH. Qed.

Lemma indexOfItem_middle (pre tl : list Item) (it : Item) :
  ident it ∉ ident <$> pre ->
  indexOfItem it (pre ++ it :: tl) = Some (length pre).
Proof.
  induction pre as [|y pre IH]; simpl; intros H.
  - unfold sameItem. now rewrite Nat.eqb_refl.
  - apply not_elem_of_cons in H as [Hne Hpre].
    assert (sameItem y it = false) as -> by (apply sameItem_false; congruence).
    now rewrite IH.
Qed.

Lemma indexOfItem_Some_lt (it : Item) (l : list Item) (i : nat) :
  indexOfItem it l = Some i -> i < length l.
Proof.
  revert i. induction l as [|y l IH]; simpl; intros i H; [discriminate|].
  destruct (sameItem y it).
  - injection H as <-. lia.
  - destruct (indexOfItem it l) as [j|]; [|discriminate].
    injection H as <-. specialize (IH j eq_refl). lia.
Qed.

(** The exact effect of the three calls on a pane whose item at [index]
    is [item], when [real] is a new object. *)
Lemma swapIn_eq (item real : Item) (index : nat) (q : Pane) (pre tl : list Item) :
  items q = pre ++ item :: tl ->
  length pre = index ->
  ident item ∉ ident <$> pre ->
  ident real ∉ ident <$> items q ->
  swapIn item real index q =
    mkPane (pre ++ real :: tl)
           (if isActiveItem q item then Some real
            else match activeItem q with Some a => Some a | None => Some real end)
           (log q ++ swapOps item real index (isActiveItem q item)).
Proof.
  intros Hitems Hlen Hpre Hfresh.
  assert (Hne : sameItem real item = false).
  { apply sameItem_false. intros Heq. apply Hfresh. rewrite Hitems, Heq.
    rewrite fmap_app, fmap_cons. apply elem_of_app. right. apply elem_of_cons. now left. }
  unfold swapIn, addItem.
  rewrite (existsb_sameItem_absent _ _ Hfresh).
  assert (Hins : insertAt (index + 1) real (items q) = pre ++ item :: real :: tl).
  { rewrite Hitems.
    replace (pre ++ item :: tl) with ((pre ++ [item]) ++ tl) by now rewrite <- app_assoc.
    replace (index + 1) with (length (pre ++ [item])) by (rewrite length_app; simpl; lia).
    rewrite insertAt_middle. now rewrite <- app_assoc. }
  rewrite Hins. unfold destroyItem. simpl items.
  rewrite (indexOfItem_middle _ _ _ Hpre), delete_middle.
  unfold isActiveItem at 2. simpl activeItem.
  unfold isActiveItem. destruct (activeItem q) as [a|] eqn:Ha.
  - destruct (sameItem a item) eqn:Hact; unfold setActiveItem, swapOps; simpl.
    + now rewrite <- !app_assoc.
    + rewrite Hact. now rewrite <- !app_assoc.
  - cbn [activeItem log items]. rewrite Hne. unfold swapOps.
    now rewrite <- !app_assoc.
Qed.

End PaneFacts.

(* ===================================================================== *)
(** ** The loop of [replacePlaceholders], pane by pane *)
(* ===================================================================== *)

Module LoopFacts.

Import Gadgets GadgetProps PaneFacts.
Local Open Scope cmd_scope.

Lemma alter_insert_same (f : Pane -> Pane) (k : nat) (q : Pane) (l : list Pane) :
  alter f k (<[k := q]> l) = <[k := f q]> l.
Proof. rewrite !list_insert_alter, list_alter_alter_eq. reflexivity. Qed.

Lemma install_id (k : nat) (q : Pane) (w : World) :
  panes w !! k = Some q -> install k (q, 0) w = w.
Proof.
  intros Hk. destruct w as [g o ps op ni ss cs ds]. unfold install. simpl in *.
  rewrite (list_insert_id _ _ _ Hk), Nat.add_0_r, app_nil_r. reflexivity.
Qed.

Lemma install_lookup (k : nat) (st : Pane * nat) (w : World) :
  k < length (panes w) -> panes (install k st w) !! k = Some st.1.
Proof. intros Hk. simpl. now apply list_lookup_insert_eq. Qed.

Lemma createPaneItem_absent (gid : string) (init : JsValue) (w : World) :
  gadgets w !! gid = None -> createPaneItem gid init w = Ok None w.
Proof. intros H. unfold createPaneItem, bind, getWorld. now rewrite H. Qed.

Lemma createPaneItem_present (gid : string) (init : JsValue) (w : World) (g : Gadget) :
  gadgets w !! gid = Some g ->
  createPaneItem gid init w =
    Ok (Some (mkItem (nextIdent w) (Component g init (length (subjects w)))))
       (set_nextIdent (S (nextIdent w))
          (set_subjects (subjects w ++ [mkSubject []]) w)).
Proof. intros H. unfold createPaneItem, bind, getWorld. now rewrite H. Qed.

(** One turn of the loop in the world is one [paneStep] on pane [k]. *)
Lemma replaceOne_paneStep (k index : nat) (item : Item) (st : Pane * nat) (w : World) :
  k < length (panes w) ->
  replaceOne k index item (install k st w) =
    Ok tt (install k (paneStep (gadgets w) (nextIdent w) (length (subjects w))
                               index item st) w).
Proof.
  intros Hk. unfold replaceOne, paneStep.
  destruct (body item) as [gid raw| |]; try reflexivity.
  unfold bind at 1. unfold getWorld.
  change (gadgets (install k st w)) with (gadgets w).
  destruct (gadgets w !! gid) as [g|] eqn:Hg; [|reflexivity].
  unfold bind at 1.
  rewrite (createPaneItem_present gid _ (install k st w) g Hg).
  unfold paneIsActive, paneAddItem, paneDestroyItem, paneSetActiveItem,
    onPane, modify, ret.
  unfold bind.
  cbn [gadgets install set_subjects set_nextIdent nextIdent subjects panes set_panes
       observer opened componentState deliveries fst snd].
  rewrite (list_lookup_insert_eq _ _ _ Hk).
  unfold swapIn.
  destruct (isActiveItem st.1 item);
    rewrite ?length_app, ?length_replicate, ?alter_insert_same;
    unfold set_panes; cbn [gadgets install set_subjects set_nextIdent nextIdent
       subjects panes observer opened componentState deliveries fst snd];
    rewrite ?alter_insert_same, ?list_insert_insert_eq;
    unfold install; cbn [fst snd];
    rewrite replicate_S_end, app_assoc, (Nat.add_succ_r (nextIdent w) st.2);
    reflexivity.
Qed.

(** The whole loop over the snapshot is [paneLoop] on pane [k]. *)
Lemma replaceLoop_paneLoop (k n : nat) (snapshot : list Item) (st : Pane * nat) (w : World) :
  k < length (panes w) ->
  replaceLoop k snapshot n (install k st w) =
    Ok tt (install k (paneLoop (gadgets w) (nextIdent w) (length (subjects w))
                               snapshot n st) w).
Proof.
  intros Hk. revert st. induction n as [|index IH]; intros st; simpl; [reflexivity|].
  unfold bind. destruct (snapshot !! index) as [item|].
  - rewrite (replaceOne_paneStep _ _ _ _ _ Hk). apply IH.
  - unfold ret. apply IH.
Qed.

Lemma replaceInPane_paneLoop (k : nat) (q : Pane) (w : World) :
  panes w !! k = Some q ->
  replaceInPane k w =
    Ok tt (install k (paneLoop (gadgets w) (nextIdent w) (length (subjects w))
                               (items q) (length (items q)) (q, 0)) w).
Proof.
  intros Hq. unfold replaceInPane, bind, paneGetItems. rewrite Hq.
  rewrite <- (install_id k q w Hq) at 1.
  apply replaceLoop_paneLoop. now apply lookup_lt_Some in Hq.
Qed.

(** *** One step on the pane *)

Lemma resolves_settled (reg : gmap string Gadget) (it : Item) :
  settled reg it -> resolves reg it it.
Proof.
  unfold settled, resolves. destruct (body it); try reflexivity.
  intros ->. reflexivity.
Qed.

Lemma paneStep_cases (reg : gmap string Gadget) (nid nch index : nat) (item : Item)
    (st : Pane * nat) :
  (settled reg item /\ paneStep reg nid nch index item st = st) \/
  (exists gid raw g,
     body item = Placeholder gid raw /\ reg !! gid = Some g /\
     paneStep reg nid nch index item st =
       (swapIn item
          (mkItem (nid + st.2)
             (Component g (match deserializeState g with
                           | Some f => f raw
                           | None => raw
                           end) (nch + st.2)))
          index st.1, S st.2)).
Proof.
  unfold paneStep, settled. destruct (body item) as [gid raw| |]; auto.
  destruct (reg !! gid) as [g|] eqn:Hg; auto.
  right. exists gid, raw, g. auto.
Qed.

Lemma NoDup_middle_not_in {A} (pre tl : list A) (x : A) :
  NoDup (pre ++ x :: tl) -> x ∉ pre.
Proof.
  intros H Hin. apply NoDup_app in H as (_ & Hdisj & _).
  apply (Hdisj x Hin). apply elem_of_cons. now left.
Qed.

Lemma NoDup_middle_replace {A} (pre tl : list A) (x y : A) :
  NoDup (pre ++ x :: tl) -> y ∉ pre ++ x :: tl -> NoDup (pre ++ y :: tl).
Proof.
  intros H Hy. apply NoDup_app in H as (Hpre & Hdisj & Htl).
  apply NoDup_cons in Htl as [Hx Htl].
  apply NoDup_app. split; [assumption|]. split.
  - intros z Hz Hz'. apply elem_of_cons in Hz' as [->|Hz'].
    + apply Hy. apply elem_of_app. now left.
    + apply (Hdisj z Hz). apply elem_of_cons. now right.
  - apply NoDup_cons. split; [|assumption].
    intros Hin. apply Hy. apply elem_of_app. right. apply elem_of_cons. now right.
Qed.

Lemma bound_not_in (bound : nat) (l : list Item) :
  Forall (fun it => ident it < bound) l -> bound ∉ ident <$> l.
Proof.
  intros H Hin. apply list_elem_of_fmap in Hin as (it & Heq & Hit).
  rewrite Forall_forall in H. specialize (H it Hit). lia.
Qed.

Lemma runOps_app (ops1 ops2 : list PaneOp) (q : Pane) :
  runOps (ops1 ++ ops2) q = runOps ops2 (runOps ops1 q).
Proof. unfold runOps. apply fold_left_app. Qed.

Lemma log_applyOp (op : PaneOp) (q : Pane) : log (applyOp op q) = log q ++ [op].
Proof.
  destruct op as [it i|it|it]; simpl.
  - unfold addItem. destruct (existsb _ _); reflexivity.
  - unfold destroyItem. destruct (indexOfItem _ _); reflexivity.
  - reflexivity.
Qed.

(** The log of a pane records exactly the calls replayed on it. *)
Lemma log_runOps (ops : list PaneOp) (q : Pane) : log (runOps ops q) = log q ++ ops.
Proof.
  revert q. induction ops as [|op ops IH]; intros q; simpl.
  - now rewrite app_nil_r.
  - unfold runOps in *. simpl. rewrite IH, log_applyOp, <- app_assoc. reflexivity.
Qed.

Lemma swapIn_runOps (item real : Item) (index : nat) (q : Pane) :
  swapIn item real index q = runOps (swapOps item real index (isActiveItem q item)) q.
Proof. unfold swapIn, swapOps. destruct (isActiveItem q item); reflexivity. Qed.

Lemma length_insertAt (i : nat) (x : Item) (l : list Item) :
  length (insertAt i x l) = S (length l).
Proof.
  revert i. induction l as [|y l IH]; intros [|i]; simpl; try reflexivity.
  now rewrite IH.
Qed.

Lemma length_items_addItem_fresh (it : Item) (i : nat) (q : Pane) :
  ident it ∉ ident <$> items q ->
  length (items (addItem it i q)) = S (length (items q)).
Proof.
  intros H. unfold addItem. rewrite (existsb_sameItem_absent _ _ H). simpl.
  apply length_insertAt.
Qed.

Lemma length_items_destroyItem (it : Item) (q : Pane) :
  length (items q) <= S (length (items (destroyItem it q))).
Proof.
  unfold destroyItem. destruct (indexOfItem it (items q)) as [i|] eqn:Hi; simpl.
  - apply indexOfItem_Some_lt in Hi. rewrite length_delete by (apply lookup_lt_is_Some_2; lia). lia.
  - lia.
Qed.

(** Insert before destroy: while the three calls run, the pane never has
    fewer items than before. *)
Lemma swapOps_neverBelow (item real : Item) (index : nat) (q : Pane) (b : bool) :
  ident real ∉ ident <$> items q ->
  neverBelow (length (items q)) (swapOps item real index b) q.
Proof.
  intros Hfresh j.
  pose proof (length_items_addItem_fresh real (index + 1) q Hfresh) as Hadd.
  pose proof (length_items_destroyItem item (addItem real (index + 1) q)) as Hdel.
  unfold swapOps.
  destruct j as [|[|[|j]]]; destruct b; simpl; rewrite ?take_nil; simpl; lia.
Qed.

Lemma neverBelow_nil (q : Pane) : neverBelow (length (items q)) [] q.
Proof. intros j. rewrite take_nil. simpl. lia. Qed.

Lemma neverBelow_app (n : nat) (ops1 ops2 : list PaneOp) (q : Pane) :
  neverBelow n ops1 q -> neverBelow n ops2 (runOps ops1 q) ->
  neverBelow n (ops1 ++ ops2) q.
Proof.
  intros H1 H2 j. rewrite take_app.
  destruct (decide (j <= length ops1)) as [Hle|Hgt].
  - replace (j - length ops1) with 0 by lia. rewrite take_0, app_nil_r. apply H1.
  - rewrite take_ge by lia. rewrite runOps_app. apply H2.
Qed.

Lemma wfPane_mono (b b' : nat) (q : Pane) : b <= b' -> wfPane b q -> wfPane b' q.
Proof.
  intros Hle [Hnd Hb]. split; [assumption|].
  eapply Forall_impl; [exact Hb|]. simpl. intros it Hit. lia.
Qed.

(** The step on a well-formed pane whose item at [length pre] is [item]. *)
Lemma swapIn_wf (item real : Item) (bound : nat) (q : Pane) (pre tl : list Item) :
  items q = pre ++ item :: tl -> wfPane bound q -> ident real = bound ->
  items (swapIn item real (length pre) q) = pre ++ real :: tl /\
  wfPane (S bound) (swapIn item real (length pre) q) /\
  (isActiveItem q item = true ->
   isActiveItem (swapIn item real (length pre) q) real = true) /\
  (forall it, isActiveItem q it = true -> ident it <> ident item ->
              isActiveItem (swapIn item real (length pre) q) it = true).
Proof.
  intros Hitems [Hnd Hb] Hreal.
  assert (Hpre : ident item ∉ ident <$> pre).
  { rewrite Hitems, fmap_app, fmap_cons in Hnd. now apply NoDup_middle_not_in in Hnd. }
  assert (Hfresh : ident real ∉ ident <$> items q).
  { rewrite Hreal. now apply bound_not_in. }
  rewrite (swapIn_eq item real (length pre) q pre tl Hitems eq_refl Hpre Hfresh).
  split; [reflexivity|]. split; [|split].
  - split; simpl.
    + rewrite fmap_app, fmap_cons.
      apply (NoDup_middle_replace _ _ (ident item)).
      * now rewrite Hitems, fmap_app, fmap_cons in Hnd.
      * now rewrite Hitems, fmap_app, fmap_cons in Hfresh.
    + rewrite Hitems in Hb. apply Forall_app in Hb as [Hb1 Hb2].
      apply Forall_cons in Hb2 as [_ Hb2].
      apply Forall_app. split; [|apply Forall_cons; split].
      * eapply Forall_impl; [exact Hb1|]. simpl. intros; lia.
      * lia.
      * eapply Forall_impl; [exact Hb2|]. simpl. intros; lia.
  - intros Hact. unfold isActiveItem at 1. simpl. rewrite Hact.
    apply sameItem_true. reflexivity.
  - intros it Hact Hne. unfold isActiveItem in *. simpl.
    destruct (activeItem q) as [a|]; [|discriminate].
    apply sameItem_true in Hact.
    assert (sameItem a item = false) as -> by (apply sameItem_false; congruence).
    now apply sameItem_true.
Qed.

Lemma ident_lookup_inj (l : list Item) (i j : nat) (a b : Item) :
  NoDup (ident <$> l) -> l !! i = Some a -> l !! j = Some b ->
  ident a = ident b -> i = j.
Proof.
  intros Hnd Ha Hb Heq.
  apply (NoDup_lookup (ident <$> l) i j (ident a) Hnd).
  - now rewrite list_lookup_fmap, Ha.
  - rewrite list_lookup_fmap, Hb. simpl. now rewrite Heq.
Qed.

Lemma ident_middle_ne (pre tl : list Item) (item it : Item) :
  NoDup (ident <$> (pre ++ item :: tl)) -> it ∈ pre ++ tl -> ident it <> ident item.
Proof.
  intros Hnd Hin Heq.
  assert (Hitem : (pre ++ item :: tl) !! length pre = Some item) by apply list_lookup_middle, eq_refl.
  apply elem_of_app in Hin as [Hin|Hin]; apply list_elem_of_lookup in Hin as [i Hi].
  - pose proof (lookup_lt_Some _ _ _ Hi) as Hlt.
    assert (Hi' : (pre ++ item :: tl) !! i = Some it) by (rewrite lookup_app_l; assumption).
    pose proof (ident_lookup_inj _ _ _ _ _ Hnd Hi' Hitem Heq). lia.
  - assert (Hi' : (pre ++ item :: tl) !! (length pre + S i) = Some it).
    { rewrite lookup_app_r by lia. replace (length pre + S i - length pre) with (S i) by lia.
      exact Hi. }
    pose proof (ident_lookup_inj _ _ _ _ _ Hnd Hi' Hitem Heq). lia.
Qed.

(** *** The loop on the pane *)

(** What the loop over the indices below [n] does to a pane that
    satisfies the loop invariant: the items still to be visited are
    resolved in place, the rest of the pane is kept, the pane stays well
    formed, it never shrinks on the way, and the item that is active stays
    active (through its replacement when it is replaced). *)
Lemma paneLoop_spec (reg : gmap string Gadget) (nid nch : nat) (snapshot : list Item)
    (n : nat) :
  forall (tl : list Item) (st : Pane * nat),
  n <= length snapshot -> loopInv nid snapshot n tl st ->
  exists hd ops,
    items (paneLoop reg nid nch snapshot n st).1 = hd ++ tl /\
    Forall2 (resolves reg) (take n snapshot) hd /\
    wfPane (nid + (paneLoop reg nid nch snapshot n st).2)
           (paneLoop reg nid nch snapshot n st).1 /\
    (paneLoop reg nid nch snapshot n st).1 = runOps ops st.1 /\
    neverBelow (length (items st.1)) ops st.1 /\
    swapTrace ops /\
    (forall i it, i < n -> snapshot !! i = Some it -> isActiveItem st.1 it = true ->
       exists it', hd !! i = Some it' /\
                   isActiveItem (paneLoop reg nid nch snapshot n st).1 it' = true) /\
    (forall it, it ∈ tl -> isActiveItem st.1 it = true ->
       isActiveItem (paneLoop reg nid nch snapshot n st).1 it = true).
Proof.
  induction n as [|index IH]; intros tl st Hn [Hitems Hwf].
  - exists [], []. simpl. rewrite take_0 in Hitems.
    conjs; try assumption.
    + constructor.
    + reflexivity.
    + apply neverBelow_nil.
    + constructor.
    + intros i it Hi. lia.
    + auto.
  - assert (Hlook : is_Some (snapshot !! index)) by (apply lookup_lt_is_Some_2; lia).
    destruct Hlook as [item Hlook].
    assert (Hlen : length (take index snapshot) = index) by (apply length_take_le; lia).
    rewrite (take_S_r _ _ _ Hlook), <- app_assoc in Hitems. simpl in Hitems.
    rewrite (take_S_r _ _ _ Hlook).
    simpl paneLoop. rewrite Hlook.
    destruct (paneStep_cases reg nid nch index item st)
      as [[Hset Hstep] | (gid & raw & g & Hbody & Hreg & Hstep)]; rewrite Hstep.
    + (* nothing to do for this item *)
      destruct (IH (item :: tl) st ltac:(lia) (conj Hitems Hwf))
        as (hd0 & ops & H1 & H2 & H3 & H4 & H5 & HT & H6 & H7).
      assert (Hlen0 : length hd0 = index) by (rewrite <- (Forall2_length _ _ _ H2); exact Hlen).
      exists (hd0 ++ [item]), ops. conjs; try assumption.
      * rewrite H1, <- app_assoc. reflexivity.
      * apply Forall2_app; [assumption|]. constructor; [|constructor].
        now apply resolves_settled.
      * intros i it Hi Hit Hact.
        destruct (decide (i = index)) as [->|Hne].
        -- rewrite Hlook in Hit. injection Hit as <-.
           exists item. split.
           ++ rewrite lookup_app_r by lia. rewrite Hlen0, Nat.sub_diag. reflexivity.
           ++ apply H7; [|assumption]. apply elem_of_cons. now left.
        -- destruct (H6 i it ltac:(lia) Hit Hact) as (it' & Hit' & Hact').
           exists it'. split; [|assumption].
           rewrite lookup_app_l; [assumption|]. now apply lookup_lt_Some in Hit'.
      * intros it Hin Hact. apply H7; [|assumption]. apply elem_of_cons. now right.
    + (* the placeholder is replaced *)
      set (real := mkItem (nid + st.2)
                     (Component g (match deserializeState g with
                                   | Some f => f raw
                                   | None => raw
                                   end) (nch + st.2))) in *.
      destruct (swapIn_wf item real (nid + st.2) st.1 _ tl Hitems Hwf eq_refl)
        as (Hi1 & Hwf1 & Ha1 & Ha2).
      rewrite Hlen in Hi1, Hwf1, Ha1, Ha2.
      set (q1 := swapIn item real index st.1) in *.
      assert (Hinv1 : loopInv nid snapshot index (real :: tl) (q1, S st.2)).
      { split; [exact Hi1|]. simpl. now rewrite Nat.add_succ_r. }
      destruct (IH (real :: tl) (q1, S st.2) ltac:(lia) Hinv1)
        as (hd0 & ops & H1 & H2 & H3 & H4 & H5 & HT & H6 & H7).
      assert (Hlen0 : length hd0 = index) by (rewrite <- (Forall2_length _ _ _ H2); exact Hlen).
      assert (Hfresh : ident real ∉ ident <$> items st.1).
      { destruct Hwf as [_ Hb]. now apply bound_not_in. }
      assert (Hnd : NoDup (ident <$> (take index snapshot ++ item :: tl))).
      { rewrite <- Hitems. apply Hwf. }
      exists (hd0 ++ [real]), (swapOps item real index (isActiveItem st.1 item) ++ ops).
      conjs.
      * rewrite H1, <- app_assoc. reflexivity.
      * apply Forall2_app; [assumption|]. constructor; [|constructor].
        unfold resolves. rewrite Hbody, Hreg. eexists. reflexivity.
      * exact H3.
      * rewrite runOps_app, <- swapIn_runOps. exact H4.
      * apply neverBelow_app.
        -- now apply swapOps_neverBelow.
        -- rewrite <- swapIn_runOps. fold q1.
           replace (length (items st.1)) with (length (items q1)); [exact H5|].
           cbn [fst] in Hitems. rewrite Hi1, Hitems, !length_app. reflexivity.
      * now constructor.
      * intros i it Hi Hit Hact.
        destruct (decide (i = index)) as [->|Hne].
        -- rewrite Hlook in Hit. injection Hit as <-.
           exists real. split.
           ++ rewrite lookup_app_r by lia. rewrite Hlen0, Nat.sub_diag. reflexivity.
           ++ apply H7; [apply elem_of_cons; now left|]. now apply Ha1.
        -- assert (Hne' : ident it <> ident item).
           { apply (ident_middle_ne _ _ _ _ Hnd). apply elem_of_app. left.
             apply list_elem_of_lookup. exists i. rewrite lookup_take_lt by lia. exact Hit. }
           destruct (H6 i it ltac:(lia) Hit (Ha2 it Hact Hne')) as (it' & Hit' & Hact').
           exists it'. split; [|assumption].
           rewrite lookup_app_l; [assumption|]. now apply lookup_lt_Some in Hit'.
      * intros it Hin Hact.
        assert (Hne' : ident it <> ident item).
        { apply (ident_middle_ne _ _ _ _ Hnd). apply elem_of_app. now right. }
        apply H7; [apply elem_of_cons; now right|]. now apply Ha2.
Qed.

End LoopFacts.

(* ===================================================================== *)
(** ** [replacePlaceholders] on the whole workspace *)
(* ===================================================================== *)

Module WorkspaceFacts.

Import Gadgets GadgetProps PaneFacts LoopFacts.
Local Open Scope cmd_scope.

(** The loop on a well-formed pane, from its first call. *)
Lemma paneFinal_spec (reg : gmap string Gadget) (nid nch : nat) (q : Pane) :
  wfPane nid q ->
  exists ops,
    Forall2 (resolves reg) (items q)
      (items (paneLoop reg nid nch (items q) (length (items q)) (q, 0)).1) /\
    wfPane (nid + (paneLoop reg nid nch (items q) (length (items q)) (q, 0)).2)
           (paneLoop reg nid nch (items q) (length (items q)) (q, 0)).1 /\
    (paneLoop reg nid nch (items q) (length (items q)) (q, 0)).1 = runOps ops q /\
    neverBelow (length (items q)) ops q /\
    swapTrace ops /\
    (forall i it, items q !! i = Some it -> isActiveItem q it = true ->
       exists it',
         items (paneLoop reg nid nch (items q) (length (items q)) (q, 0)).1 !! i = Some it' /\
         isActiveItem (paneLoop reg nid nch (items q) (length (items q)) (q, 0)).1 it' = true).
Proof.
  intros Hwf.
  assert (Hinv : loopInv nid (items q) (length (items q)) [] (q, 0)).
  { split; simpl.
    - now rewrite take_ge, app_nil_r by lia.
    - now rewrite Nat.add_0_r. }
  destruct (paneLoop_spec reg nid nch (items q) (length (items q)) [] (q, 0)
              ltac:(lia) Hinv) as (hd & ops & H1 & H2 & H3 & H4 & H5 & HT & H6 & _).
  rewrite app_nil_r in H1. rewrite take_ge in H2 by lia.
  exists ops. rewrite H1. repeat (split; [assumption|]).
  intros i it Hit Hact. apply (H6 i it); [|assumption..].
  now apply lookup_lt_Some in Hit.
Qed.

Lemma replaceInPane_out_of_range (k : nat) (w : World) :
  panes w !! k = None -> replaceInPane k w = Ok tt w.
Proof. intros H. unfold replaceInPane, bind, paneGetItems. now rewrite H. Qed.

(** Visiting the panes [ks] never throws, and yields [afterPanes]. *)
Lemma forEach_replaceInPane (ks : list nat) (w : World) :
  forEach ks replaceInPane w = Ok tt (afterPanes ks w).
Proof.
  revert w. induction ks as [|k ks IH]; intros w; simpl; [reflexivity|].
  unfold bind. destruct (panes w !! k) as [q|] eqn:Hq.
  - rewrite (replaceInPane_paneLoop k q w Hq). apply IH.
  - rewrite (replaceInPane_out_of_range k w Hq). apply IH.
Qed.

Lemma replacePlaceholders_eq (w : World) :
  replacePlaceholders w = Ok tt (afterPanes (seq 0 (length (panes w))) w).
Proof. unfold replacePlaceholders, bind, getWorld. apply forEach_replaceInPane. Qed.

(** Visiting panes changes neither the registry nor the panes' number. *)
Lemma afterPanes_gadgets (ks : list nat) (w : World) :
  gadgets (afterPanes ks w) = gadgets w.
Proof.
  revert w. induction ks as [|k ks IH]; intros w; simpl; [reflexivity|].
  rewrite IH. destruct (panes w !! k); reflexivity.
Qed.

Lemma afterPanes_length (ks : list nat) (w : World) :
  length (panes (afterPanes ks w)) = length (panes w).
Proof.
  revert w. induction ks as [|k ks IH]; intros w; simpl; [reflexivity|].
  rewrite IH. destruct (panes w !! k); [|reflexivity].
  simpl. apply length_insert.
Qed.

Lemma afterPanes_unvisited (ks : list nat) (w : World) (k : nat) :
  k ∉ ks -> panes (afterPanes ks w) !! k = panes w !! k.
Proof.
  revert w. induction ks as [|j ks IH]; intros w Hk; simpl; [reflexivity|].
  apply not_elem_of_cons in Hk as [Hne Hk].
  rewrite (IH _ Hk). destruct (panes w !! j); [|reflexivity].
  simpl. now apply list_lookup_insert_ne.
Qed.

Lemma install_wfWorld (k : nat) (q : Pane) (w : World) :
  wfWorld w -> panes w !! k = Some q ->
  wfWorld (install k (paneLoop (gadgets w) (nextIdent w) (length (subjects w))
                               (items q) (length (items q)) (q, 0)) w).
Proof.
  intros Hwf Hq j p Hp.
  destruct (paneFinal_spec (gadgets w) (nextIdent w) (length (subjects w)) q (Hwf k q Hq))
    as (ops & _ & Hwf' & _).
  simpl in Hp |- *. apply list_lookup_insert_Some in Hp as [(-> & <- & _)|[Hne Hp]].
  - exact Hwf'.
  - eapply wfPane_mono; [|exact (Hwf j p Hp)]. lia.
Qed.

Lemma afterPanes_wfWorld (ks : list nat) (w : World) :
  wfWorld w -> wfWorld (afterPanes ks w).
Proof.
  revert w. induction ks as [|k ks IH]; intros w Hwf; simpl; [assumption|].
  apply IH. destruct (panes w !! k) as [q|] eqn:Hq; [|assumption].
  now apply install_wfWorld.
Qed.

(** A pane that is visited once ends as the loop leaves it, run with the
    identities that are free when its turn comes. *)
Lemma afterPanes_visited (ks : list nat) (w : World) (k : nat) (q : Pane) :
  NoDup ks -> k ∈ ks -> wfWorld w -> panes w !! k = Some q ->
  exists nid nch,
    wfPane nid q /\
    panes (afterPanes ks w) !! k =
      Some (paneLoop (gadgets w) nid nch (items q) (length (items q)) (q, 0)).1.
Proof.
  revert w. induction ks as [|j ks IH]; intros w Hnd Hk Hwf Hq.
  - now apply elem_of_nil in Hk.
  - apply NoDup_cons in Hnd as [Hj Hnd]. simpl.
    destruct (decide (k = j)) as [->|Hne].
    + rewrite Hq. exists (nextIdent w), (length (subjects w)). split; [now apply (Hwf j)|].
      rewrite (afterPanes_unvisited _ _ _ Hj). simpl.
      apply list_lookup_insert_eq. now apply lookup_lt_Some in Hq.
    + apply elem_of_cons in Hk as [Hk|Hk]; [congruence|].
      destruct (panes w !! j) as [p|] eqn:Hp.
      * destruct (IH (install j (paneLoop (gadgets w) (nextIdent w) (length (subjects w))
                                          (items p) (length (items p)) (p, 0)) w)
                     Hnd Hk (install_wfWorld j p w Hwf Hp)) as (nid & nch & Hwfq & Hres).
        { simpl. rewrite list_lookup_insert_ne by congruence. exact Hq. }
        exists nid, nch. split; [exact Hwfq|]. exact Hres.
      * exact (IH w Hnd Hk Hwf Hq).
Qed.

End WorkspaceFacts.

(* ===================================================================== *)
(** ** Properties of the commands *)
(* ===================================================================== *)

Module CommandFacts.

Import Gadgets GadgetProps PaneFacts LoopFacts WorkspaceFacts.
Local Open Scope cmd_scope.

(** [replacePlaceholders] returns, and every pane ends as its loop leaves
    it. *)
Lemma replacePlaceholders_pane (w : World) :
  wfWorld w ->
  exists w1,
    replacePlaceholders w = Ok tt w1 /\
    gadgets w1 = gadgets w /\
    length (panes w1) = length (panes w) /\
    forall k q, panes w !! k = Some q ->
      exists nid nch,
        wfPane nid q /\
        panes w1 !! k =
          Some (paneLoop (gadgets w) nid nch (items q) (length (items q)) (q, 0)).1.
Proof.
  intros Hwf. exists (afterPanes (seq 0 (length (panes w))) w).
  split; [apply replacePlaceholders_eq|].
  split; [apply afterPanes_gadgets|].
  split; [apply afterPanes_length|].
  intros k q Hq. apply afterPanes_visited; try assumption.
  - apply NoDup_seq.
  - apply elem_of_seq. apply lookup_lt_Some in Hq. lia.
Qed.

Lemma resolves_settled_r (reg : gmap string Gadget) (a b : Item) :
  resolves reg a b -> settled reg b.
Proof.
  unfold resolves, settled. destruct (body a) as [gid raw| |] eqn:Ha.
  - destruct (reg !! gid) as [g|] eqn:Hg.
    + intros [ch ->]. exact I.
    + intros ->. now rewrite Ha.
  - intros ->. now rewrite Ha.
  - intros ->. now rewrite Ha.
Qed.

Lemma paneStep_settled (reg : gmap string Gadget) (nid nch index : nat) (item : Item)
    (st : Pane * nat) :
  settled reg item -> paneStep reg nid nch index item st = st.
Proof.
  unfold settled, paneStep. destruct (body item); try reflexivity.
  now intros ->.
Qed.

Lemma paneLoop_settled (reg : gmap string Gadget) (nid nch : nat) (snapshot : list Item)
    (n : nat) (st : Pane * nat) :
  Forall (settled reg) snapshot -> paneLoop reg nid nch snapshot n st = st.
Proof.
  intros Hall. induction n as [|index IH]; simpl; [reflexivity|].
  destruct (snapshot !! index) as [item|] eqn:Hitem; [|exact IH].
  rewrite paneStep_settled; [exact IH|].
  rewrite Forall_forall in Hall. apply Hall.
  apply list_elem_of_lookup. now exists index.
Qed.

(** When nothing is left to resolve, visiting the panes changes nothing. *)
Lemma afterPanes_settled (ks : list nat) (w : World) :
  (forall k q, panes w !! k = Some q -> Forall (settled (gadgets w)) (items q)) ->
  afterPanes ks w = w.
Proof.
  intros Hall. induction ks as [|k ks IH]; simpl; [reflexivity|].
  destruct (panes w !! k) as [q|] eqn:Hq; [|exact IH].
  rewrite (paneLoop_settled _ _ _ _ _ _ (Hall k q Hq)), (install_id k q w Hq).
  exact IH.
Qed.

Lemma world0_wf : wfWorld Samples.world0.
Proof.
  intros k q Hq. destruct k as [|[|k]]; simpl in Hq; try discriminate;
    injection Hq as <-; split; simpl.
  - apply (bool_decide_unpack _). vm_compute. exact I.
  - repeat constructor.
  - apply (bool_decide_unpack _). vm_compute. exact I.
  - repeat constructor.
Qed.

(** C1: in a pane whose items are a placeholder [A] for a registered
    gadget [X] followed by an item [B] that is not a placeholder,
    [replacePlaceholders] leaves [A'; B], where [A'] is a component of the
    gadget registered as [X]: the pane was told to add [A'] at index 1,
    right after the placeholder, and then to destroy [A], so the order is
    kept; and when [A] was the active item, [A'] is the active item. *)
Theorem replacePlaceholders_placeholder_then_real
    (w : World) (k : nat) (q : Pane) (A B : Item) (X : string) (raw : JsValue)
    (g : Gadget) :
  wfWorld w ->
  panes w !! k = Some q ->
  items q = [A; B] ->
  body A = Placeholder X raw ->
  isPlaceholder B = false ->
  gadgets w !! X = Some g ->
  exists w1 q1 A',
    replacePlaceholders w = Ok tt w1 /\
    panes w1 !! k = Some q1 /\
    items q1 = [A'; B] /\
    (exists init ch, body A' = Component g init ch) /\
    log q1 = log q ++ [AddItem A' 1; DestroyItem A] ++
                      (if isActiveItem q A then [SetActiveItem A'] else []) /\
    (activeItem q = Some A -> activeItem q1 = Some A').
Proof.
  intros Hwf Hq Hitems HA HB Hg.
  destruct (replacePlaceholders_pane w Hwf) as (w1 & Hrun & _ & _ & Hpanes).
  destruct (Hpanes k q Hq) as (nid & nch & [Hnd Hb] & Hq1).
  set (init := match deserializeState g with Some f => f raw | None => raw end).
  set (A' := mkItem nid (Component g init nch)).
  assert (Hloop : paneLoop (gadgets w) nid nch (items q) (length (items q)) (q, 0) =
                  (swapIn A A' 0 q, 1)).
  { rewrite Hitems. simpl.
    assert (paneStep (gadgets w) nid nch 1 B (q, 0) = (q, 0)) as ->.
    { unfold paneStep. unfold isPlaceholder in HB. destruct (body B); congruence. }
    unfold paneStep. rewrite HA, Hg. simpl. rewrite !Nat.add_0_r. reflexivity. }
  assert (Hfresh : ident A' ∉ ident <$> items q) by now apply bound_not_in.
  assert (Hswap := swapIn_eq A A' 0 q [] [B] Hitems eq_refl ltac:(set_solver) Hfresh).
  exists w1, (swapIn A A' 0 q), A'.
  split; [exact Hrun|]. split; [now rewrite Hq1, Hloop|].
  rewrite Hswap. simpl.
  split; [reflexivity|]. split; [now exists init, nch|]. split; [reflexivity|].
  intros Hact. unfold isActiveItem. rewrite Hact.
  assert (sameItem A A = true) as -> by now apply sameItem_true.
  reflexivity.
Qed.

Lemma replacePlaceholders_placeholder_then_real_witness :
  exists w1 q1 A',
    replacePlaceholders Samples.world0 = Ok tt w1 /\
    panes w1 !! 0 = Some q1 /\
    items q1 = [A'; Samples.itemB] /\
    (exists init ch, body A' = Component Samples.counter init ch) /\
    log q1 = log Samples.pane0 ++ [AddItem A' 1; DestroyItem Samples.itemA] ++
               (if isActiveItem Samples.pane0 Samples.itemA
                then [SetActiveItem A'] else []) /\
    (activeItem Samples.pane0 = Some Samples.itemA -> activeItem q1 = Some A').
Proof.
  apply (replacePlaceholders_placeholder_then_real
           Samples.world0 0 Samples.pane0 Samples.itemA Samples.itemB
           "counter" (JNum 7) Samples.counter).
  - exact world0_wf.
  - reflexivity.
  - reflexivity.
  - reflexivity.
  - reflexivity.
  - vm_compute. reflexivity.
Defined.

(** C2: [replacePlaceholders] returns, and what it did to a pane is a
    sequence of replacements, each adding the real item before destroying
    the placeholder; at every intermediate state of that sequence the pane
    holds at least as many items as before the call, so a pane that was
    not empty never holds zero items. *)
Theorem replacePlaceholders_never_drops_items (w : World) :
  wfWorld w ->
  exists w1,
    replacePlaceholders w = Ok tt w1 /\
    forall k q, panes w !! k = Some q ->
      exists q1 ops,
        panes w1 !! k = Some q1 /\
        q1 = runOps ops q /\
        log q1 = log q ++ ops /\
        swapTrace ops /\
        (forall j, length (items q) <= length (items (runOps (take j ops) q))) /\
        (items q <> [] -> forall j, items (runOps (take j ops) q) <> []).
Proof.
  intros Hwf.
  destruct (replacePlaceholders_pane w Hwf) as (w1 & Hrun & _ & _ & Hpanes).
  exists w1. split; [exact Hrun|].
  intros k q Hq.
  destruct (Hpanes k q Hq) as (nid & nch & Hwfq & Hq1).
  destruct (paneFinal_spec (gadgets w) nid nch q Hwfq)
    as (ops & _ & _ & Hops & Hnb & Htr & _).
  eexists _, ops. split; [exact Hq1|]. split; [exact Hops|].
  split; [rewrite Hops; apply log_runOps|]. split; [exact Htr|].
  split; [exact Hnb|].
  intros Hne j Hempty. specialize (Hnb j). rewrite Hempty in Hnb.
  destruct (items q); [congruence | simpl in Hnb; lia].
Qed.

Lemma replacePlaceholders_never_drops_items_witness :
  exists w1,
    replacePlaceholders Samples.world0 = Ok tt w1 /\
    forall k q, panes Samples.world0 !! k = Some q ->
      exists q1 ops,
        panes w1 !! k = Some q1 /\
        q1 = runOps ops q /\
        log q1 = log q ++ ops /\
        swapTrace ops /\
        (forall j, length (items q) <= length (items (runOps (take j ops) q))) /\
        (items q <> [] -> forall j, items (runOps (take j ops) q) <> []).
Proof. apply (replacePlaceholders_never_drops_items Samples.world0). exact world0_wf. Defined.

(** C3: after a first [replacePlaceholders], a second one, run while the
    registry and the panes are as the first call left them, returns with
    the world unchanged: no pane gets an [addItem], [destroyItem] or
    [setActiveItem] call and no item is created. *)
Theorem replacePlaceholders_idempotent (w : World) :
  wfWorld w ->
  exists w1,
    replacePlaceholders w = Ok tt w1 /\
    forall w2, gadgets w2 = gadgets w -> panes w2 = panes w1 ->
      replacePlaceholders w2 = Ok tt w2.
Proof.
  intros Hwf.
  destruct (replacePlaceholders_pane w Hwf) as (w1 & Hrun & Hreg & Hlen & Hpanes).
  exists w1. split; [exact Hrun|].
  intros w2 Hreg2 Hpanes2.
  rewrite replacePlaceholders_eq. f_equal. apply afterPanes_settled.
  intros k q1 Hq1. rewrite Hpanes2 in Hq1. rewrite Hreg2.
  assert (Hlt : k < length (panes w)) by (rewrite <- Hlen; now apply lookup_lt_Some in Hq1).
  destruct (lookup_lt_is_Some_2 _ _ Hlt) as [q Hq].
  destruct (Hpanes k q Hq) as (nid & nch & Hwfq & Hq1').
  rewrite Hq1' in Hq1. injection Hq1 as <-.
  destruct (paneFinal_spec (gadgets w) nid nch q Hwfq) as (ops & Hres & _).
  apply Forall_forall. intros b Hb.
  apply list_elem_of_lookup in Hb as [i Hi].
  destruct (Forall2_lookup_r _ _ _ _ _ Hres Hi) as (a & _ & Hab).
  now apply resolves_settled_r in Hab.
Qed.

Lemma replacePlaceholders_idempotent_witness :
  exists w1,
    replacePlaceholders Samples.world0 = Ok tt w1 /\
    forall w2, gadgets w2 = gadgets Samples.world0 -> panes w2 = panes w1 ->
      replacePlaceholders w2 = Ok tt w2.
Proof. apply (replacePlaceholders_idempotent Samples.world0). exact world0_wf. Defined.

(** C6: a placeholder for a registered gadget is replaced, in its slot,
    by the item [createPaneItem] makes for that gadget, and the initial
    state given to it is [deserializeState] applied to the placeholder's
    raw state when the gadget has that function, and the raw state itself,
    whatever it is, when it has not. *)
Theorem replacePlaceholders_initial_state
    (w : World) (k i : nat) (q : Pane) (item : Item) (gid : string) (raw : JsValue)
    (g : Gadget) :
  wfWorld w ->
  panes w !! k = Some q ->
  items q !! i = Some item ->
  body item = Placeholder gid raw ->
  gadgets w !! gid = Some g ->
  exists w1 q1 real init ch,
    replacePlaceholders w = Ok tt w1 /\
    panes w1 !! k = Some q1 /\
    items q1 !! i = Some real /\
    body real = Component g init ch /\
    (forall f, deserializeState g = Some f -> init = f raw) /\
    (deserializeState g = None -> init = raw).
Proof.
  intros Hwf Hq Hi Hbody Hg.
  destruct (replacePlaceholders_pane w Hwf) as (w1 & Hrun & _ & _ & Hpanes).
  destruct (Hpanes k q Hq) as (nid & nch & Hwfq & Hq1).
  destruct (paneFinal_spec (gadgets w) nid nch q Hwfq) as (ops & Hres & _).
  destruct (Forall2_lookup_l _ _ _ _ _ Hres Hi) as (real & Hreal & Hab).
  unfold resolves in Hab. rewrite Hbody, Hg in Hab. destruct Hab as [ch Hch].
  eexists w1, _, real, _, ch.
  split; [exact Hrun|]. split; [exact Hq1|]. split; [exact Hreal|].
  split; [exact Hch|]. split.
  - intros f Hf. now rewrite Hf.
  - intros Hf. now rewrite Hf.
Qed.

Lemma replacePlaceholders_initial_state_witness :
  (exists w1 q1 real init ch,
     replacePlaceholders Samples.world0 = Ok tt w1 /\
     panes w1 !! 0 = Some q1 /\
     items q1 !! 0 = Some real /\
     body real = Component Samples.counter init ch /\
     (forall f, deserializeState Samples.counter = Some f -> init = f (JNum 7)) /\
     (deserializeState Samples.counter = None -> init = JNum 7)) /\
  (exists w1 q1 real init ch,
     replacePlaceholders Samples.world0 = Ok tt w1 /\
     panes w1 !! 1 = Some q1 /\
     items q1 !! 0 = Some real /\
     body real = Component Samples.clock init ch /\
     (forall f, deserializeState Samples.clock = Some f -> init = f JNull) /\
     (deserializeState Samples.clock = None -> init = JNull)).
Proof.
  split.
  - apply (replacePlaceholders_initial_state
             Samples.world0 0 0 Samples.pane0 Samples.itemA "counter" (JNum 7)
             Samples.counter).
    + exact world0_wf.
    + reflexivity.
    + reflexivity.
    + reflexivity.
    + vm_compute. reflexivity.
  - apply (replacePlaceholders_initial_state
             Samples.world0 1 0 Samples.pane1 Samples.itemC "clock" JNull
             Samples.clock).
    + exact world0_wf.
    + reflexivity.
    + reflexivity.
    + reflexivity.
    + vm_compute. reflexivity.
Defined.

(** C4: for a gadget identifier that is absent from the registry,
    [createPaneItem] returns no item and leaves the world as it is: the
    observer has received nothing, and no subject and no component were
    made. *)
Theorem createPaneItem_unregistered (w : World) (gid : string) (init : JsValue) :
  gadgets w !! gid = None ->
  createPaneItem gid init w = Ok None w.
Proof. apply createPaneItem_absent. Qed.

Lemma createPaneItem_unregistered_witness :
  createPaneItem "missing" (JNum 1) Samples.world0 = Ok None Samples.world0.
Proof.
  apply (createPaneItem_unregistered Samples.world0 "missing" (JNum 1)).
  vm_compute. reflexivity.
Defined.

(** C8: [openUri] returns no item, without throwing and without any
    effect, when the URI does not parse, and otherwise returns what
    [createPaneItem] returns for the parsed gadget identifier, with no
    initial state. *)
Theorem openUri_delegates (parse : string -> option ParsedUri) (uri : string) (w : World) :
  openUri parse uri w =
    match parse uri with
    | None => Ok None w
    | Some parsed => createPaneItem (gadgetId parsed) JUndefined w
    end.
Proof. unfold openUri. destruct (parse uri); reflexivity. Qed.

(** *** The pub-sub system of a component *)

Lemma alter_lookup_Some {A} (f : A -> A) (i : nat) (x : A) (l : list A) :
  l !! i = Some x -> alter f i l = <[i := f x]> l.
Proof.
  intros H. rewrite <- (list_insert_id l i x H) at 1.
  rewrite list_insert_alter, list_alter_alter_eq, list_insert_alter. reflexivity.
Qed.

(** Subscribing callbacks appends them, in order, to the observers. *)
Lemma subscribe_all (ch : nat) (cbs : list nat) :
  forall (w : World) (s : Subject),
  subjects w !! ch = Some s ->
  forEach cbs (subscribe ch) w =
    Ok tt (set_subjects (<[ch := mkSubject (observers s ++ cbs)]> (subjects w)) w).
Proof.
  induction cbs as [|cb cbs IH]; intros w s Hs; simpl.
  - unfold ret. f_equal. rewrite app_nil_r. destruct s as [obs]. simpl.
    rewrite (list_insert_id _ _ _ Hs). now destruct w.
  - unfold bind, subscribe, Subject_forEach, modify.
    rewrite (alter_lookup_Some _ _ _ _ Hs).
    rewrite (IH _ (mkSubject (observers s ++ [cb]))).
    + simpl. unfold set_subjects. simpl.
      now rewrite list_insert_insert_eq, <- app_assoc.
    + simpl. apply list_lookup_insert_eq. now apply lookup_lt_Some in Hs.
Qed.

(** One [notify] calls every current observer once, in order, whatever
    the state that is published. *)
Lemma notify_eq (ch c : nat) (w : World) (s : Subject) :
  subjects w !! ch = Some s ->
  notify ch c w =
    Ok tt (set_deliveries
             (deliveries w ++
              map (fun cb => mkDelivery ch cb (default JUndefined (componentState w !! c)))
                  (observers s)) w).
Proof.
  intros Hs. unfold notify, bind, getWorld, Subject_onNext, modify. now rewrite Hs.
Qed.

(** C7: for the item [createPaneItem] makes and the callbacks [cbs]
    registered through its [subscribe], every [notify] calls each
    subscriber exactly once, in subscription order; two [notify] in a row,
    the component's state being the same at both, produce the events of
    one [notify] twice. *)
Theorem notify_twice_delivers_twice
    (w : World) (gid : string) (init : JsValue) (g : Gadget) (cbs : list nat) :
  gadgets w !! gid = Some g ->
  exists it ch w1 w2,
    createPaneItem gid init w = Ok (Some it) w1 /\
    body it = Component g init ch /\
    forEach cbs (subscribe ch) w1 = Ok tt w2 /\
    forall w3, subjects w3 = subjects w2 ->
      exists w4 w5,
        notify ch (ident it) w3 = Ok tt w4 /\
        notify ch (ident it) w4 = Ok tt w5 /\
        componentState w4 = componentState w3 /\
        deliveries w4 =
          deliveries w3 ++
          map (fun cb => mkDelivery ch cb
                           (default JUndefined (componentState w3 !! ident it))) cbs /\
        deliveries w5 =
          deliveries w4 ++
          map (fun cb => mkDelivery ch cb
                           (default JUndefined (componentState w3 !! ident it))) cbs.
Proof.
  intros Hg.
  set (ch := length (subjects w)).
  set (it := mkItem (nextIdent w) (Component g init ch)).
  set (w1 := set_nextIdent (S (nextIdent w))
               (set_subjects (subjects w ++ [mkSubject []]) w)).
  assert (Hch : subjects w1 !! ch = Some (mkSubject [])).
  { simpl. apply list_lookup_middle. reflexivity. }
  exists it, ch, w1,
    (set_subjects (<[ch := mkSubject ([] ++ cbs)]> (subjects w1)) w1).
  split; [now apply createPaneItem_present|]. split; [reflexivity|].
  split; [exact (subscribe_all ch cbs w1 _ Hch)|].
  intros w3 Hsub.
  assert (Hs3 : subjects w3 !! ch = Some (mkSubject cbs)).
  { rewrite Hsub. simpl. apply list_lookup_insert_eq.
    rewrite length_app. simpl. unfold ch. lia. }
  eexists _, _. split; [exact (notify_eq ch (ident it) w3 _ Hs3)|].
  split; [apply notify_eq; exact Hs3|].
  repeat split.
Qed.

Lemma notify_twice_delivers_twice_witness :
  exists it ch w1 w2,
    createPaneItem "clock" JNull Samples.world0 = Ok (Some it) w1 /\
    body it = Component Samples.clock JNull ch /\
    forEach [10; 11] (subscribe ch) w1 = Ok tt w2 /\
    forall w3, subjects w3 = subjects w2 ->
      exists w4 w5,
        notify ch (ident it) w3 = Ok tt w4 /\
        notify ch (ident it) w4 = Ok tt w5 /\
        componentState w4 = componentState w3 /\
        deliveries w4 =
          deliveries w3 ++
          map (fun cb => mkDelivery ch cb
                           (default JUndefined (componentState w3 !! ident it))) [10; 11] /\
        deliveries w5 =
          deliveries w4 ++
          map (fun cb => mkDelivery ch cb
                           (default JUndefined (componentState w3 !! ident it))) [10; 11].
Proof.
  apply (notify_twice_delivers_twice Samples.world0 "clock" JNull Samples.clock [10; 11]).
  vm_compute. reflexivity.
Defined.

(** *** Commands after [deactivate] *)

Lemma deactivate_eq (w : World) :
  deactivate w = Ok tt (set_observer (onCompleted (onNext DEACTIVATE (observer w))) w).
Proof. reflexivity. Qed.

Lemma set_observer_same (w : World) : set_observer (observer w) w = w.
Proof. now destruct w. Qed.

Lemma onNext_stopped (a : Action) (o : Observer) : isStopped o = true -> onNext a o = o.
Proof. intros H. unfold onNext. now rewrite H. Qed.

Lemma afterPanes_set_observer (o : Observer) (ks : list nat) (w : World) :
  afterPanes ks (set_observer o w) = set_observer o (afterPanes ks w).
Proof.
  revert w. induction ks as [|k ks IH]; intros w; simpl; [reflexivity|].
  destruct (panes w !! k) as [q|]; [|apply IH].
  rewrite <- IH. reflexivity.
Qed.

(** A command that sends nothing to the observer does not look at it. *)
Lemma run_silent_set_observer
    (parse : string -> option ParsedUri) (format : ParsedUri -> string)
    (wrap : Gadget -> Gadget) (o : Observer) (c : Command) (w : World) :
  silent c = true ->
  run parse format wrap c (set_observer o w) = withObserver o (run parse format wrap c w).
Proof.
  assert (Hcreate : forall gid init,
            createPaneItem gid init (set_observer o w) =
            withObserver o (createPaneItem gid init w)).
  { intros gid init. unfold createPaneItem, bind, getWorld. simpl.
    destruct (gadgets w !! gid); reflexivity. }
  destruct c as [|uri|gid init|g| |gid|gid]; simpl; try discriminate; intros _.
  - unfold openUri. destruct (parse uri); [apply Hcreate | reflexivity].
  - apply Hcreate.
  - unfold bind. rewrite !replacePlaceholders_eq. simpl.
    now rewrite afterPanes_set_observer.
  - reflexivity.
Qed.

Lemma run_no_lifecycleError
    (parse : string -> option ParsedUri) (format : ParsedUri -> string)
    (wrap : Gadget -> Gadget) (c : Command) (w : World) :
  ~ lifecycleError (run parse format wrap c w).
Proof.
  intros [w' H].
  assert (Hcreate : forall gid init w', createPaneItem gid init w <> Throw LifecycleViolation w').
  { intros gid init w0. unfold createPaneItem, bind, getWorld.
    destruct (gadgets w !! gid); discriminate. }
  destruct c as [|uri|gid init|g| |gid|gid]; simpl in H; try discriminate.
  - unfold openUri in H. destruct (parse uri); [now apply Hcreate in H | discriminate].
  - now apply Hcreate in H.
  - unfold bind in H. rewrite replacePlaceholders_eq in H. discriminate.
Qed.

(** C5, as the code has it: [deactivate] sends [DEACTIVATE] and completes
    the observer; afterwards no command signals a lifecycle error;
    [registerGadget] and [unregisterGadget] reach a completed observer and
    change nothing; [openUri], [createPaneItem], [replacePlaceholders] and
    [showGadget] return and act exactly as without the deactivation, so
    [createPaneItem] for a gadget that is still in the registry returns a
    live item. *)
Theorem commands_after_deactivate
    (parse : string -> option ParsedUri) (format : ParsedUri -> string)
    (wrap : Gadget -> Gadget) (w : World) :
  exists w1,
    deactivate w = Ok tt w1 /\
    isStopped (observer w1) = true /\
    (forall c, ~ lifecycleError (run parse format wrap c w1)) /\
    (forall g, run parse format wrap (CRegisterGadget g) w1 = Ok None w1) /\
    (forall gid, run parse format wrap (CUnregisterGadget gid) w1 = Ok None w1) /\
    (forall c, silent c = true ->
       run parse format wrap c w1 =
       withObserver (observer w1) (run parse format wrap c w)) /\
    (forall gid init g, gadgets w !! gid = Some g ->
       exists it ch w2,
         createPaneItem gid init w1 = Ok (Some it) w2 /\
         body it = Component g init ch).
Proof.
  exists (set_observer (onCompleted (onNext DEACTIVATE (observer w))) w).
  split; [apply deactivate_eq|]. split; [reflexivity|].
  split; [intros c; apply run_no_lifecycleError|].
  split; [|split; [|split]].
  - intros g. simpl. unfold bind, registerGadget, modify. simpl.
    rewrite onNext_stopped by reflexivity. reflexivity.
  - intros gid. simpl. unfold bind, unregisterGadget, modify. simpl.
    rewrite onNext_stopped by reflexivity. reflexivity.
  - intros c Hc. now apply run_silent_set_observer.
  - intros gid init g Hg. eexists _, _, _. split.
    + apply createPaneItem_present. exact Hg.
    + reflexivity.
Qed.

Lemma commands_after_deactivate_witness :
  exists w1,
    deactivate Samples.world0 = Ok tt w1 /\
    isStopped (observer w1) = true /\
    (forall c, ~ lifecycleError
                   (run Samples.sampleParse Samples.sampleFormat Samples.sampleWrap c w1)) /\
    (forall g, run Samples.sampleParse Samples.sampleFormat Samples.sampleWrap
                   (CRegisterGadget g) w1 = Ok None w1) /\
    (forall gid, run Samples.sampleParse Samples.sampleFormat Samples.sampleWrap
                     (CUnregisterGadget gid) w1 = Ok None w1) /\
    (forall c, silent c = true ->
       run Samples.sampleParse Samples.sampleFormat Samples.sampleWrap c w1 =
       withObserver (observer w1)
         (run Samples.sampleParse Samples.sampleFormat Samples.sampleWrap c Samples.world0)) /\
    (forall gid init g, gadgets Samples.world0 !! gid = Some g ->
       exists it ch w2,
         createPaneItem gid init w1 = Ok (Some it) w2 /\
         body it = Component g init ch).
Proof.
  exact (commands_after_deactivate
           Samples.sampleParse Samples.sampleFormat Samples.sampleWrap Samples.world0).
Defined.

(** C5, as stated, fails: after [deactivate], [createPaneItem] for a
    registered gadget neither does nothing nor signals a lifecycle error;
    it returns a live item and allocates it, whatever the URI codec and
    the gadget wrapper are. *)
Lemma deactivate_does_not_guard_commands :
  ~ (exists parse format wrap, guardedAfterDeactivate parse format wrap).
Proof.
  intros (parse & format & wrap & H).
  destruct (H Samples.world0 _ (CCreatePaneItem "counter" JUndefined)
              ltac:(discriminate) (deactivate_eq Samples.world0)) as [[a Ha] | [w' Hw']].
  - simpl in Ha.
    rewrite (createPaneItem_present "counter" JUndefined _ Samples.counter) in Ha
      by (vm_compute; reflexivity).
    apply (f_equal (fun r => match r with
                             | Ok _ w' => nextIdent w'
                             | Throw _ w' => nextIdent w'
                             end)) in Ha.
    simpl in Ha. discriminate.
  - simpl in Hw'.
    rewrite (createPaneItem_present "counter" JUndefined _ Samples.counter) in Hw'
      by (vm_compute; reflexivity).
    discriminate.
Qed.

End CommandFacts.

(* ===================================================================== *)
(** ** More on the outline labels and the outline tree *)
(* ===================================================================== *)

Module OutlineExtras.

Import JsString JsStringFacts Outline OutlineProps OutlineFacts.

(** Induction on cursor trees, with the hypothesis for all children. *)
Lemma cursor_tree_ind (P : ClangOutlineTree -> Prop) :
  (forall c, children c = None -> P c) ->
  (forall c cs, children c = Some cs -> Forall P cs -> P c) ->
  forall c, P c.
Proof.
  intros Hleaf Hnode. fix IH 1. intros c.
  destruct c as [n k ty ps tps ext [cs|]].
  - apply (Hnode (mkCursor n k ty ps tps ext (Some cs)) cs eq_refl).
    induction cs as [|c' cs IHcs]; constructor; [apply IH | exact IHcs].
  - now apply Hleaf.
Qed.

Lemma intersperse_cons {A} (sep x : A) (l : list A) :
  intersperse sep (x :: l) = x :: flat_map (fun y => [sep; y]) l.
Proof.
  revert x. induction l as [|y l IH]; intros x; [reflexivity|].
  change (intersperse sep (x :: y :: l)) with (x :: sep :: intersperse sep (y :: l)).
  now rewrite IH.
Qed.

Lemma paramTokensFrom_nonempty (acc : TokenizedText) (ps : list string) :
  acc <> [] ->
  paramTokensFrom acc ps = acc ++ flat_map (fun p => [plain ", "; param p]) ps.
Proof.
  revert acc. induction ps as [|p ps IH]; intros acc Hacc; simpl.
  - now rewrite app_nil_r.
  - destruct acc as [|a acc]; [congruence|]. simpl.
    rewrite IH by (destruct acc; discriminate).
    simpl. now rewrite <- !app_assoc.
Qed.

Lemma paramTokensFrom_nil (ps : list string) :
  paramTokensFrom [] ps = intersperse (plain ", ") (map param ps).
Proof.
  destruct ps as [|p ps]; [reflexivity|].
  change (paramTokensFrom [] (p :: ps)) with (paramTokensFrom [param p] ps).
  rewrite paramTokensFrom_nonempty by discriminate.
  change (map param (p :: ps)) with (param p :: map param ps).
  rewrite intersperse_cons. simpl. f_equal.
  induction ps as [|q ps IH]; [reflexivity|]. simpl. now rewrite IH.
Qed.

Lemma tparamTokensFrom_started (acc : TokenizedText) (ps : list string) :
  (2 <= List.length acc)%nat ->
  tparamTokensFrom acc ps = acc ++ flat_map (fun p => [plain ", "; plain p]) ps.
Proof.
  revert acc. induction ps as [|p ps IH]; intros acc Hacc; simpl.
  - now rewrite app_nil_r.
  - destruct (Z.ltb_spec 1 (Z.of_nat (List.length acc))) as [_|]; [|lia].
    rewrite IH by (rewrite !length_app; simpl; lia).
    simpl. now rewrite <- !app_assoc.
Qed.

Lemma tparamTokensFrom_open (t : string) (ts : list string) :
  tparamTokensFrom [plain "<"] (t :: ts) =
    plain "<" :: intersperse (plain ", ") (map plain (t :: ts)).
Proof.
  change (tparamTokensFrom [plain "<"] (t :: ts))
    with (tparamTokensFrom [plain "<"; plain t] ts).
  rewrite tparamTokensFrom_started by (simpl; lia).
  change (map plain (t :: ts)) with (plain t :: map plain ts).
  rewrite intersperse_cons. simpl. do 2 f_equal.
  induction ts as [|q ts IH]; [reflexivity|]. simpl. now rewrite IH.
Qed.

Lemma tokenizeCursor_callable_tokens (tbl : string -> option string)
    (cursor : ClangOutlineTree) (ps : list string) :
  children cursor = None ->
  params cursor = Some ps ->
  tokenizeCursor tbl cursor =
    [method (name cursor)] ++
    match tparams cursor with
    | Some (t :: ts) =>
        [plain "<"] ++ intersperse (plain ", ") (map plain (t :: ts)) ++ [plain ">"]
    | _ => []
    end ++
    [plain "("] ++ intersperse (plain ", ") (map param ps) ++ [plain ")"].
Proof.
  intros Hc Hp. unfold tokenizeCursor. rewrite Hc, Hp, paramTokensFrom_nil.
  destruct (tparams cursor) as [[|t ts]|]; try reflexivity.
  rewrite tparamTokensFrom_open. reflexivity.
Qed.

(** X1: the label of a callable (a cursor with [params] and without
    [children]) is the name, then, only for a non-empty [tparams], the
    template parameters between ["<"] and [">"], then the parameters
    between ["("] and [")"]; parameters are separated by [", "] tokens,
    with no separator before the first or after the last. *)
Theorem tokenizeCursor_callable (tbl : string -> option string)
    (cursor : ClangOutlineTree) (ps : list string) :
  children cursor = None ->
  params cursor = Some ps ->
  tokenizeCursor tbl cursor =
    [method (name cursor)] ++
    match tparams cursor with
    | Some (t :: ts) =>
        [plain "<"] ++ intersperse (plain ", ") (map plain (t :: ts)) ++ [plain ">"]
    | _ => []
    end ++
    [plain "("] ++ intersperse (plain ", ") (map param ps) ++ [plain ")"].
Proof. apply tokenizeCursor_callable_tokens. Qed.

Lemma tokenizeCursor_callable_witness :
  tokenizeCursor Samples.sampleKinds Samples.cursorSwap =
    [method "swap"; plain "<"; plain "T"; plain ", "; plain "U"; plain ">";
     plain "("; param "a"; plain ", "; param "b"; plain ")"].
Proof.
  exact (tokenizeCursor_callable Samples.sampleKinds Samples.cursorSwap ["a"; "b"]
           eq_refl eq_refl).
Defined.

Lemma textOf_app (a b : TokenizedText) : textOf (a ++ b) = textOf a +:+ textOf b.
Proof.
  induction a as [|t a IH]; [reflexivity|].
  simpl. rewrite IH. now rewrite append_assoc.
Qed.

Lemma append_empty_r (s : string) : s +:+ "" = s.
Proof. induction s as [|a s IH]; [reflexivity|]. rewrite append_cons. now rewrite IH. Qed.

Lemma textOf_intersperse (f : string -> Token) (sep : string) (l : list string) :
  (forall x, value (f x) = x) ->
  textOf (intersperse (plain sep) (map f l)) = String.concat sep l.
Proof.
  intros Hf. induction l as [|x l IH]; [reflexivity|].
  destruct l as [|y l].
  - simpl. rewrite Hf. apply append_empty_r.
  - change (textOf (intersperse (plain sep) (map f (x :: y :: l))))
      with (value (f x) +:+ sep +:+ textOf (intersperse (plain sep) (map f (y :: l)))).
    rewrite IH, Hf. reflexivity.
Qed.

(** X2: the text of a callable's label is [name(p1, p2, ...)], with
    [<t1, t2, ...>] after the name when there are template parameters. *)
Theorem tokenizeCursor_callable_text (tbl : string -> option string)
    (cursor : ClangOutlineTree) (ps : list string) :
  children cursor = None ->
  params cursor = Some ps ->
  textOf (tokenizeCursor tbl cursor) =
    name cursor +:+
    match tparams cursor with
    | Some (t :: ts) => "<" +:+ String.concat ", " (t :: ts) +:+ ">"
    | _ => ""
    end +:+
    "(" +:+ String.concat ", " ps +:+ ")".
Proof.
  intros Hc Hp. rewrite (tokenizeCursor_callable_tokens tbl cursor ps Hc Hp).
  rewrite !textOf_app, (textOf_intersperse param) by reflexivity.
  destruct (tparams cursor) as [[|t ts]|];
    rewrite ?textOf_app, ?(textOf_intersperse plain) by reflexivity;
    simpl; rewrite ?append_empty_r, ?append_assoc; reflexivity.
Qed.

Lemma tokenizeCursor_callable_text_witness :
  textOf (tokenizeCursor Samples.sampleKinds Samples.cursorSwap) = "swap<T, U>(a, b)".
Proof.
  exact (tokenizeCursor_callable_text Samples.sampleKinds Samples.cursorSwap ["a"; "b"]
           eq_refl eq_refl).
Defined.

Lemma occurs_append (c : ascii) (a b : string) :
  occurs c (a +:+ b) = occurs c a || occurs c b.
Proof.
  induction a as [|x a IH]; [reflexivity|].
  rewrite append_cons. simpl. now rewrite IH, orb_assoc.
Qed.

(** X3: in a long type whose first ['<'] comes before its last ['>'],
    exactly the text between the two is replaced by ["..."]: the label
    reads [pre<...>suf], and it is shorter than the type only when more
    than three characters stood between the brackets. *)
Theorem tokenizeType_replaces_interior (pre mid suf : string) :
  occurs lt_char pre = false ->
  occurs gt_char suf = false ->
  (50 < String.length (pre +:+ "<" +:+ mid +:+ ">" +:+ suf))%nat ->
  textOf (tokenizeType (pre +:+ "<" +:+ mid +:+ ">" +:+ suf)) =
    pre +:+ "<...>" +:+ suf /\
  (String.length (textOf (tokenizeType (pre +:+ "<" +:+ mid +:+ ">" +:+ suf)))
   + String.length mid =
   String.length (pre +:+ "<" +:+ mid +:+ ">" +:+ suf) + 3)%nat.
Proof.
  intros Hpre Hsuf Hlen.
  rewrite (tokenizeType_long _ pre (mid +:+ ">" +:+ suf) (pre +:+ "<" +:+ mid) suf
             Hlen eq_refl Hpre (eq_sym (append_assoc pre ("<" +:+ mid) (">" +:+ suf))) Hsuf).
  assert (Htext : textOf [plain (pre +:+ "<"); string_ "..."; plain (String gt_char suf)] =
                  pre +:+ "<...>" +:+ suf).
  { simpl. rewrite append_empty_r, append_assoc. reflexivity. }
  rewrite Htext. split; [reflexivity|].
  repeat first [rewrite length_append | progress simpl]. lia.
Qed.

Lemma tokenizeType_replaces_interior_witness :
  textOf (tokenizeType
            ("std::map" +:+ "<" +:+ "std::string, std::vector<std::pair<int, int>>" +:+ ">"
             +:+ "::iterator")) =
    "std::map" +:+ "<...>" +:+ "::iterator" /\
  (String.length
     (textOf (tokenizeType
                ("std::map" +:+ "<" +:+ "std::string, std::vector<std::pair<int, int>>"
                 +:+ ">" +:+ "::iterator")))
   + String.length "std::string, std::vector<std::pair<int, int>>" =
   String.length
     ("std::map" +:+ "<" +:+ "std::string, std::vector<std::pair<int, int>>" +:+ ">"
      +:+ "::iterator") + 3)%nat.
Proof.
  apply (tokenizeType_replaces_interior
           "std::map" "std::string, std::vector<std::pair<int, int>>" "::iterator").
  - reflexivity.
  - reflexivity.
  - vm_compute. lia.
Defined.

(** X4: the closing bracket is looked for in the whole type, not after
    the opening one.  In a long type whose only ['>'] comes before its
    only ['<'], as in [a>b<c], the first token runs up to the ['<'] and
    the last one starts at the ['>']: the text [>b<] between them appears
    in both, and the label is longer than the type. *)
Theorem tokenizeType_brackets_reversed (a b c : string) :
  occurs lt_char a = false -> occurs lt_char b = false ->
  occurs gt_char b = false -> occurs gt_char c = false ->
  (50 < String.length (a +:+ ">" +:+ b +:+ "<" +:+ c))%nat ->
  tokenizeType (a +:+ ">" +:+ b +:+ "<" +:+ c) =
    [plain (a +:+ ">" +:+ b +:+ "<"); string_ "..."; plain (">" +:+ b +:+ "<" +:+ c)] /\
  String.length (textOf (tokenizeType (a +:+ ">" +:+ b +:+ "<" +:+ c))) =
    (String.length (a +:+ ">" +:+ b +:+ "<" +:+ c) + String.length b + 5)%nat.
Proof.
  intros Ha Hb Hb' Hc Hlen.
  assert (Htok : tokenizeType (a +:+ ">" +:+ b +:+ "<" +:+ c) =
                 [plain ((a +:+ ">" +:+ b) +:+ "<"); string_ "...";
                  plain (String gt_char (b +:+ "<" +:+ c))]).
  { apply (tokenizeType_long _ (a +:+ ">" +:+ b) c a (b +:+ "<" +:+ c) Hlen).
    - rewrite !append_assoc. reflexivity.
    - rewrite !occurs_append, Ha, Hb. reflexivity.
    - reflexivity.
    - rewrite !occurs_append, Hb', Hc. reflexivity. }
  rewrite Htok. split.
  - rewrite !append_assoc. reflexivity.
  - repeat first [rewrite length_append | progress simpl]. lia.
Qed.

Lemma tokenizeType_brackets_reversed_witness :
  tokenizeType ("bool (Ordering::*)(const Key &, const Key &) operator" +:+ ">" +:+ " then "
                +:+ "<" +:+ " reversed") =
    [plain ("bool (Ordering::*)(const Key &, const Key &) operator" +:+ ">" +:+ " then "
            +:+ "<");
     string_ "...";
     plain (">" +:+ " then " +:+ "<" +:+ " reversed")] /\
  String.length
    (textOf (tokenizeType
               ("bool (Ordering::*)(const Key &, const Key &) operator" +:+ ">" +:+ " then "
                +:+ "<" +:+ " reversed"))) =
    (String.length ("bool (Ordering::*)(const Key &, const Key &) operator" +:+ ">"
                    +:+ " then " +:+ "<" +:+ " reversed")
     + String.length " then " + 5)%nat.
Proof.
  apply (tokenizeType_brackets_reversed
           "bool (Ordering::*)(const Key &, const Key &) operator" " then " " reversed").
  - reflexivity.
  - reflexivity.
  - reflexivity.
  - reflexivity.
  - vm_compute. lia.
Defined.

Lemma outlineFromCursor_entries (tbl : string -> option string) (c : ClangOutlineTree) :
  outlineEntries (outlineFromCursor tbl c) = cursorEntries c.
Proof.
  induction c as [c Hc | c cs Hc IH] using cursor_tree_ind;
    destruct c as [n k ty ps tps ext ch]; simpl in Hc; subst ch; simpl; [reflexivity|].
  f_equal. induction IH as [|c' cs' Hc' _ IHcs]; [reflexivity|].
  simpl. now rewrite Hc', IHcs.
Qed.

(** X5: the conversion keeps every node of the cursor forest, at any
    depth: read parents before children, the outline has the same names
    with the same start and end positions, in the same order. *)
Theorem outlineFromClangOutline_keeps_nodes (tbl : string -> option string)
    (outline : list ClangOutlineTree) :
  flat_map outlineEntries (outlineFromClangOutline tbl outline) =
  flat_map cursorEntries outline.
Proof.
  unfold outlineFromClangOutline.
  induction outline as [|c outline IH]; [reflexivity|].
  simpl. now rewrite outlineFromCursor_entries, IH.
Qed.

Lemma outlineNodes_from_cursor (tbl : string -> option string) (c : ClangOutlineTree) :
  forall t, t ∈ outlineNodes (outlineFromCursor tbl c) ->
            exists c', t = outlineFromCursor tbl c'.
Proof.
  induction c as [c Hc | c cs Hc IH] using cursor_tree_ind; intros t Ht;
    destruct c as [n k ty ps tps ext ch]; simpl in Hc; subst ch; simpl in Ht.
  - apply list_elem_of_singleton in Ht. subst t.
    now exists (mkCursor n k ty ps tps ext None).
  - apply elem_of_cons in Ht as [->|Ht];
      [now exists (mkCursor n k ty ps tps ext (Some cs))|].
    induction IH as [|c' cs' Hc' _ IHcs]; simpl in Ht.
    + now apply elem_of_nil in Ht.
    + apply elem_of_app in Ht as [Ht|Ht]; [now apply Hc' | now apply IHcs].
Qed.

(** X6: in the converted outline, at any depth, a node that has children
    is labelled as a class-like construct: a keyword, a space and the
    node's name, whatever parameters or type its cursor carries. *)
Theorem outline_parents_are_class_like (tbl : string -> option string)
    (outline : list ClangOutlineTree) (t : OutlineTree) :
  t ∈ flat_map outlineNodes (outlineFromClangOutline tbl outline) ->
  o_children t <> [] ->
  exists kw,
    tokenizedText t = [keyword kw; whitespace " "; className (representativeName t)].
Proof.
  intros Ht Hch.
  assert (Hc : exists c, t = outlineFromCursor tbl c).
  { unfold outlineFromClangOutline in Ht.
    induction outline as [|c outline IH]; simpl in Ht.
    - now apply elem_of_nil in Ht.
    - apply elem_of_app in Ht as [Ht|Ht]; [|now apply IH].
      now apply (outlineNodes_from_cursor tbl c). }
  destruct Hc as [c ->]. destruct c as [n k ty ps tps ext [cs|]]; simpl in *.
  - eexists. reflexivity.
  - congruence.
Qed.

Lemma outline_parents_are_class_like_witness :
  exists kw,
    tokenizedText (outlineFromCursor Samples.sampleKinds Samples.cursorStruct) =
      [keyword kw; whitespace " ";
       className (representativeName
                    (outlineFromCursor Samples.sampleKinds Samples.cursorStruct))].
Proof.
  apply (outline_parents_are_class_like Samples.sampleKinds
           [Samples.cursorSwap; Samples.cursorStruct]).
  - apply list_elem_of_In. vm_compute. right. left. reflexivity.
  - discriminate.
Defined.

End OutlineExtras.

(* ===================================================================== *)
(** ** More on the commands *)
(* ===================================================================== *)

Module CommandExtras.

Import Gadgets GadgetProps PaneFacts LoopFacts WorkspaceFacts CommandFacts.
Local Open Scope cmd_scope.

Lemma replacePlaceholders_resolves (w : World) :
  wfWorld w ->
  exists w1,
    replacePlaceholders w = Ok tt w1 /\
    length (panes w1) = length (panes w) /\
    wfWorld w1 /\
    forall k q, panes w !! k = Some q ->
      exists q1,
        panes w1 !! k = Some q1 /\
        Forall2 (resolves (gadgets w)) (items q) (items q1).
Proof.
  intros Hwf.
  destruct (replacePlaceholders_pane w Hwf) as (w1 & Hrun & _ & Hlen & Hpanes).
  exists w1. split; [exact Hrun|]. split; [exact Hlen|]. split.
  - rewrite replacePlaceholders_eq in Hrun. injection Hrun as <-.
    now apply afterPanes_wfWorld.
  - intros k q Hq.
    destruct (Hpanes k q Hq) as (nid & nch & Hwfq & Hq1).
    destruct (paneFinal_spec (gadgets w) nid nch q Hwfq) as (ops & Hres & _).
    eexists. split; [exact Hq1 | exact Hres].
Qed.

Lemma resolves_settled_eq (reg : gmap string Gadget) (a b : Item) :
  settled reg a -> resolves reg a b -> b = a.
Proof.
  unfold resolves, settled. destruct (body a) as [gid raw| |]; try (intros _ H; exact H).
  intros ->. auto.
Qed.

(** X7: [replacePlaceholders] works slot by slot: every pane keeps its
    number of items, and each slot holds afterwards either the item it
    held, or, for a placeholder of a registered gadget, the component made
    for that gadget from the placeholder's state. *)
Theorem replacePlaceholders_slotwise (w : World) :
  wfWorld w ->
  exists w1,
    replacePlaceholders w = Ok tt w1 /\
    length (panes w1) = length (panes w) /\
    forall k q, panes w !! k = Some q ->
      exists q1,
        panes w1 !! k = Some q1 /\
        length (items q1) = length (items q) /\
        Forall2 (resolves (gadgets w)) (items q) (items q1).
Proof.
  intros Hwf.
  destruct (replacePlaceholders_resolves w Hwf) as (w1 & Hrun & Hlen & _ & Hpanes).
  exists w1. split; [exact Hrun|]. split; [exact Hlen|].
  intros k q Hq.
  destruct (Hpanes k q Hq) as (q1 & Hq1 & Hres).
  exists q1. split; [exact Hq1|]. split; [|exact Hres].
  symmetry. exact (Forall2_length _ _ _ Hres).
Qed.

Lemma replacePlaceholders_slotwise_witness :
  exists w1,
    replacePlaceholders Samples.world0 = Ok tt w1 /\
    length (panes w1) = length (panes Samples.world0) /\
    forall k q, panes Samples.world0 !! k = Some q ->
      exists q1,
        panes w1 !! k = Some q1 /\
        length (items q1) = length (items q) /\
        Forall2 (resolves (gadgets Samples.world0)) (items q) (items q1).
Proof. apply (replacePlaceholders_slotwise Samples.world0). exact world0_wf. Defined.

(** X8: an item that is not a placeholder, and a placeholder whose gadget
    is not registered, stay where they are, as the same object, also when
    other items of the pane are replaced. *)
Theorem replacePlaceholders_keeps_settled_items
    (w : World) (k i : nat) (q : Pane) (item : Item) :
  wfWorld w ->
  panes w !! k = Some q ->
  items q !! i = Some item ->
  settled (gadgets w) item ->
  exists w1 q1,
    replacePlaceholders w = Ok tt w1 /\
    panes w1 !! k = Some q1 /\
    items q1 !! i = Some item.
Proof.
  intros Hwf Hq Hi Hset.
  destruct (replacePlaceholders_resolves w Hwf) as (w1 & Hrun & _ & _ & Hpanes).
  destruct (Hpanes k q Hq) as (q1 & Hq1 & Hres).
  destruct (Forall2_lookup_l _ _ _ _ _ Hres Hi) as (b & Hb & Hab).
  exists w1, q1. split; [exact Hrun|]. split; [exact Hq1|].
  rewrite Hb. f_equal. now apply (resolves_settled_eq (gadgets w)).
Qed.

Lemma replacePlaceholders_keeps_settled_items_witness :
  exists w1 q1,
    replacePlaceholders Samples.world0 = Ok tt w1 /\
    panes w1 !! 1 = Some q1 /\
    items q1 !! 1 = Some Samples.itemD.
Proof.
  apply (replacePlaceholders_keeps_settled_items
           Samples.world0 1 1 Samples.pane1 Samples.itemD).
  - exact world0_wf.
  - reflexivity.
  - reflexivity.
  - vm_compute. reflexivity.
Defined.

(** X9: the active slot stays the active slot: when the item at index
    [i] of a pane is its active item, the item at index [i] is the active
    item afterwards, be it the same item or the component that replaced
    it, and whatever else was replaced in the pane. *)
Theorem replacePlaceholders_keeps_active_slot
    (w : World) (k i : nat) (q : Pane) (item : Item) :
  wfWorld w ->
  panes w !! k = Some q ->
  items q !! i = Some item ->
  isActiveItem q item = true ->
  exists w1 q1 item',
    replacePlaceholders w = Ok tt w1 /\
    panes w1 !! k = Some q1 /\
    items q1 !! i = Some item' /\
    isActiveItem q1 item' = true.
Proof.
  intros Hwf Hq Hi Hact.
  destruct (replacePlaceholders_pane w Hwf) as (w1 & Hrun & _ & _ & Hpanes).
  destruct (Hpanes k q Hq) as (nid & nch & Hwfq & Hq1).
  destruct (paneFinal_spec (gadgets w) nid nch q Hwfq)
    as (ops & _ & _ & _ & _ & _ & Hactive).
  destruct (Hactive i item Hi Hact) as (item' & Hi' & Hact').
  eexists w1, _, item'. split; [exact Hrun|]. split; [exact Hq1|].
  split; assumption.
Qed.

Lemma replacePlaceholders_keeps_active_slot_witness :
  exists w1 q1 item',
    replacePlaceholders Samples.world0 = Ok tt w1 /\
    panes w1 !! 1 = Some q1 /\
    items q1 !! 1 = Some item' /\
    isActiveItem q1 item' = true.
Proof.
  apply (replacePlaceholders_keeps_active_slot
           Samples.world0 1 1 Samples.pane1 Samples.itemD).
  - exact world0_wf.
  - reflexivity.
  - reflexivity.
  - reflexivity.
Defined.

Lemma afterPanes_frame (ks : list nat) (w : World) :
  observer (afterPanes ks w) = observer w /\
  opened (afterPanes ks w) = opened w /\
  componentState (afterPanes ks w) = componentState w /\
  deliveries (afterPanes ks w) = deliveries w.
Proof.
  revert w. induction ks as [|k ks IH]; intros w; simpl; [repeat split|].
  destruct (panes w !! k) as [q|]; [|apply IH].
  destruct (IH (install k (paneLoop (gadgets w) (nextIdent w) (length (subjects w))
                                    (items q) (length (items q)) (q, 0)) w))
    as (H1 & H2 & H3 & H4).
  rewrite H1, H2, H3, H4. repeat split.
Qed.

(** X10: on any workspace, well formed or not, [replacePlaceholders]
    returns without throwing (the item it hands to [addItem] is never
    missing), sends nothing to the observer, opens nothing, and leaves the
    registry, the number of panes, the components' states and the
    subscribers' deliveries as they were. *)
Theorem replacePlaceholders_only_touches_panes (w : World) :
  exists w1,
    replacePlaceholders w = Ok tt w1 /\
    gadgets w1 = gadgets w /\
    observer w1 = observer w /\
    opened w1 = opened w /\
    componentState w1 = componentState w /\
    deliveries w1 = deliveries w /\
    length (panes w1) = length (panes w).
Proof.
  exists (afterPanes (seq 0 (length (panes w))) w).
  destruct (afterPanes_frame (seq 0 (length (panes w))) w) as (H1 & H2 & H3 & H4).
  split; [apply replacePlaceholders_eq|].
  split; [apply afterPanes_gadgets|].
  repeat (split; [assumption|]). apply afterPanes_length.
Qed.

(** X11: when no pane holds a placeholder whose gadget is registered (no
    placeholder at all, or an empty registry), [replacePlaceholders]
    changes nothing at all. *)
Theorem replacePlaceholders_nothing_to_resolve (w : World) :
  (forall k q, panes w !! k = Some q -> Forall (settled (gadgets w)) (items q)) ->
  replacePlaceholders w = Ok tt w.
Proof.
  intros Hall. rewrite replacePlaceholders_eq. f_equal. now apply afterPanes_settled.
Qed.

Lemma replacePlaceholders_nothing_to_resolve_witness :
  replacePlaceholders Samples.worldUnregistered = Ok tt Samples.worldUnregistered.
Proof.
  apply (replacePlaceholders_nothing_to_resolve Samples.worldUnregistered).
  intros k q Hq. destruct k as [|[|k]]; simpl in Hq; try discriminate;
    injection Hq as <-; repeat constructor.
Defined.

(** X12: [replacePlaceholders] keeps the workspace well formed: no pane
    holds an object twice afterwards, and every item, old or new, has an
    identity below the next one to be allocated. *)
Theorem replacePlaceholders_keeps_wellformed (w : World) :
  wfWorld w ->
  exists w1, replacePlaceholders w = Ok tt w1 /\ wfWorld w1.
Proof.
  intros Hwf. exists (afterPanes (seq 0 (length (panes w))) w).
  split; [apply replacePlaceholders_eq | now apply afterPanes_wfWorld].
Qed.

Lemma replacePlaceholders_keeps_wellformed_witness :
  exists w1, replacePlaceholders Samples.world0 = Ok tt w1 /\ wfWorld w1.
Proof. apply (replacePlaceholders_keeps_wellformed Samples.world0). exact world0_wf. Defined.

(** What one call does to the observer. *)
Lemma run_observer
    (parse : string -> option ParsedUri) (format : ParsedUri -> string)
    (wrap : Gadget -> Gadget) (c : Command) (w : World) :
  exists r w1,
    run parse format wrap c w = Ok r w1 /\
    observer w1 =
      match c with
      | CDeactivate => onCompleted (onNext DEACTIVATE (observer w))
      | CRegisterGadget g => onNext (REGISTER_GADGET (wrap g)) (observer w)
      | CUnregisterGadget gid => onNext (UNREGISTER_GADGET gid) (observer w)
      | _ => observer w
      end.
Proof.
  assert (Hcreate : forall gid init, exists r w1,
            createPaneItem gid init w = Ok r w1 /\ observer w1 = observer w).
  { intros gid init. unfold createPaneItem, bind, getWorld.
    destruct (gadgets w !! gid); eexists _, _; split; reflexivity. }
  destruct c as [|uri|gid init|g| |gid|gid]; simpl.
  - eexists _, _. split; reflexivity.
  - unfold openUri. destruct (parse uri); [apply Hcreate|].
    eexists _, _. split; reflexivity.
  - apply Hcreate.
  - eexists _, _. split; reflexivity.
  - exists None, (afterPanes (seq 0 (length (panes w))) w).
    unfold bind. rewrite replacePlaceholders_eq. split; [reflexivity|].
    apply afterPanes_frame.
  - eexists _, _. split; reflexivity.
  - eexists _, _. split; reflexivity.
Qed.

(** X13: whatever calls are made and in whatever order, none throws, and
    the observer receives exactly one action per [registerGadget] (the
    wrapped gadget) and per [unregisterGadget], in call order, up to the
    first [deactivate], whose [DEACTIVATE] is the last action it ever
    receives; the other commands send nothing. *)
Theorem runAll_actions
    (parse : string -> option ParsedUri) (format : ParsedUri -> string)
    (wrap : Gadget -> Gadget) (cs : list Command) (w : World) :
  exists w1,
    runAll parse format wrap cs w = Ok tt w1 /\
    emitted (observer w1) =
      emitted (observer w) ++
      (if isStopped (observer w) then [] else actionsOf wrap cs).
Proof.
  revert w. induction cs as [|c cs IH]; intros w.
  - exists w. split; [reflexivity|]. destruct (isStopped (observer w)); now rewrite app_nil_r.
  - destruct (run_observer parse format wrap c w) as (r & w' & Hrun & Hobs).
    destruct (IH w') as (w1 & Hrest & Hem).
    exists w1. simpl. unfold bind. rewrite Hrun. split; [exact Hrest|].
    rewrite Hem, Hobs. unfold onNext, onCompleted.
    destruct (isStopped (observer w)) eqn:Hstop;
      destruct c; simpl; rewrite ?Hstop; simpl;
      rewrite <- ?app_assoc, ?app_nil_r; reflexivity.
Qed.

(** *** Allocation *)

Lemma paneStep_count (reg : gmap string Gadget) (nid nch index : nat) (item : Item)
    (st : Pane * nat) :
  (paneStep reg nid nch index item st).2 =
    st.2 + (if isResolvable reg item then 1 else 0).
Proof.
  unfold paneStep, isResolvable. destruct (body item) as [gid raw| |]; simpl; try lia.
  destruct (reg !! gid) as [g|] eqn:Hg; simpl; lia.
Qed.

Lemma paneLoop_count (reg : gmap string Gadget) (nid nch : nat) (snapshot : list Item)
    (n : nat) :
  forall st, n <= length snapshot ->
  (paneLoop reg nid nch snapshot n st).2 =
    st.2 + length (filter (fun it => isResolvable reg it = true) (take n snapshot)).
Proof.
  induction n as [|index IH]; intros st Hn.
  - rewrite take_0. simpl. lia.
  - destruct (lookup_lt_is_Some_2 snapshot index ltac:(lia)) as [item Hitem].
    cbn [paneLoop]. rewrite Hitem, IH by lia. rewrite paneStep_count.
    rewrite (take_S_r _ _ _ Hitem), filter_app, length_app, filter_cons, filter_nil.
    destruct (decide (isResolvable reg item = true)) as [Hr|Hr].
    + rewrite Hr. simpl. lia.
    + destruct (isResolvable reg item); [congruence|]. simpl. lia.
Qed.

Lemma sum_list_with_ext_in {A} (f g : A -> nat) (l : list A) :
  (forall x, x ∈ l -> f x = g x) -> sum_list_with f l = sum_list_with g l.
Proof.
  induction l as [|x l IH]; intros H; simpl; [reflexivity|].
  rewrite (H x) by (apply elem_of_cons; now left).
  rewrite IH; [reflexivity|]. intros y Hy. apply H. apply elem_of_cons. now right.
Qed.

Lemma sum_list_with_fmap {A B} (f : A -> B) (g : B -> nat) (l : list A) :
  sum_list_with g (f <$> l) = sum_list_with (fun x => g (f x)) l.
Proof. induction l as [|x l IH]; [reflexivity|]. simpl in *. f_equal. exact IH. Qed.

Lemma sum_list_with_lookup {A} (f : A -> nat) (l : list A) :
  sum_list_with (fun k => from_option f 0 (l !! k)) (seq 0 (length l)) =
  sum_list_with f l.
Proof.
  induction l as [|x l IH]; [reflexivity|].
  simpl. rewrite <- fmap_S_seq, sum_list_with_fmap. simpl. now rewrite IH.
Qed.

Lemma afterPanes_allocations (ks : list nat) (w : World) :
  NoDup ks ->
  nextIdent (afterPanes ks w) =
    nextIdent w +
    sum_list_with (fun k => from_option (resolvableCount (gadgets w)) 0 (panes w !! k)) ks /\
  length (subjects (afterPanes ks w)) =
    length (subjects w) +
    sum_list_with (fun k => from_option (resolvableCount (gadgets w)) 0 (panes w !! k)) ks.
Proof.
  revert w. induction ks as [|k ks IH]; intros w Hnd; simpl; [split; lia|].
  apply NoDup_cons in Hnd as [Hk Hnd].
  destruct (panes w !! k) as [q|] eqn:Hq; simpl.
  - set (st := paneLoop (gadgets w) (nextIdent w) (length (subjects w))
                        (items q) (length (items q)) (q, 0)).
    destruct (IH (install k st w) Hnd) as [Hid Hsub].
    assert (Hst : st.2 = resolvableCount (gadgets w) q).
    { unfold st. rewrite paneLoop_count by lia. simpl.
      unfold resolvableCount. now rewrite take_ge by lia. }
    assert (Hext : sum_list_with
                     (fun j => from_option (resolvableCount (gadgets (install k st w))) 0
                                           (panes (install k st w) !! j)) ks =
                   sum_list_with
                     (fun j => from_option (resolvableCount (gadgets w)) 0 (panes w !! j)) ks).
    { apply sum_list_with_ext_in. intros j Hj. simpl.
      rewrite list_lookup_insert_ne by (intros ->; contradiction). reflexivity. }
    rewrite Hid, Hsub, Hext. simpl. rewrite length_app, length_replicate, Hst. lia.
  - apply (IH w Hnd).
Qed.

(** X14: [replacePlaceholders] creates exactly one item, with one new
    subject, for every placeholder whose gadget is registered, and none
    for anything else. *)
Theorem replacePlaceholders_allocations (w : World) :
  exists w1,
    replacePlaceholders w = Ok tt w1 /\
    nextIdent w1 =
      nextIdent w + sum_list_with (resolvableCount (gadgets w)) (panes w) /\
    length (subjects w1) =
      length (subjects w) + sum_list_with (resolvableCount (gadgets w)) (panes w).
Proof.
  exists (afterPanes (seq 0 (length (panes w))) w).
  split; [apply replacePlaceholders_eq|].
  destruct (afterPanes_allocations (seq 0 (length (panes w))) w (NoDup_seq _ _))
    as [Hid Hsub].
  rewrite Hid, Hsub, sum_list_with_lookup. split; reflexivity.
Qed.

(** *** Creating items *)

(** X15: for a registered gadget, [createPaneItem] returns a component of
    that gadget with the given initial state and only allocates: it sends
    nothing to the observer, changes no pane (the new item is in none of
    them: placing it is left to the caller), and the subject it makes for
    the item is a new one, without subscribers. *)
Theorem createPaneItem_only_allocates
    (w : World) (gid : string) (init : JsValue) (g : Gadget) :
  wfWorld w ->
  gadgets w !! gid = Some g ->
  exists it ch w1,
    createPaneItem gid init w = Ok (Some it) w1 /\
    body it = Component g init ch /\
    gadgets w1 = gadgets w /\ observer w1 = observer w /\
    opened w1 = opened w /\ deliveries w1 = deliveries w /\
    panes w1 = panes w /\
    (forall k q, panes w1 !! k = Some q -> ident it ∉ ident <$> items q) /\
    subjects w !! ch = None /\
    subjects w1 !! ch = Some (mkSubject []) /\
    wfWorld w1.
Proof.
  intros Hwf Hg.
  eexists _, _, _. split; [exact (createPaneItem_present gid init w g Hg)|].
  split; [reflexivity|]. do 5 (split; [reflexivity|]).
  split; [|split; [|split]].
  - intros k q Hq. simpl in *. apply bound_not_in. exact (proj2 (Hwf k q Hq)).
  - apply lookup_ge_None_2. lia.
  - simpl. apply list_lookup_middle. reflexivity.
  - intros k q Hq. simpl in *. eapply wfPane_mono; [|exact (Hwf k q Hq)]. lia.
Qed.

Lemma createPaneItem_only_allocates_witness :
  exists it ch w1,
    createPaneItem "clock" JNull Samples.world0 = Ok (Some it) w1 /\
    body it = Component Samples.clock JNull ch /\
    gadgets w1 = gadgets Samples.world0 /\ observer w1 = observer Samples.world0 /\
    opened w1 = opened Samples.world0 /\ deliveries w1 = deliveries Samples.world0 /\
    panes w1 = panes Samples.world0 /\
    (forall k q, panes w1 !! k = Some q -> ident it ∉ ident <$> items q) /\
    subjects Samples.world0 !! ch = None /\
    subjects w1 !! ch = Some (mkSubject []) /\
    wfWorld w1.
Proof.
  apply (createPaneItem_only_allocates Samples.world0 "clock" JNull Samples.clock).
  - exact world0_wf.
  - vm_compute. reflexivity.
Defined.

(** X16: every item has its own subject.  Two items made by two calls of
    [createPaneItem] are different objects with different subjects, and a
    [notify] of the second reaches none of the callbacks subscribed to the
    first. *)
Theorem createPaneItem_channels_are_separate
    (w : World) (gid1 gid2 : string) (init1 init2 : JsValue) (g1 g2 : Gadget)
    (cbs : list nat) :
  gadgets w !! gid1 = Some g1 ->
  gadgets w !! gid2 = Some g2 ->
  exists it1 ch1 w1 it2 ch2 w2 w3 w4,
    createPaneItem gid1 init1 w = Ok (Some it1) w1 /\
    body it1 = Component g1 init1 ch1 /\
    createPaneItem gid2 init2 w1 = Ok (Some it2) w2 /\
    body it2 = Component g2 init2 ch2 /\
    ident it1 <> ident it2 /\ ch1 <> ch2 /\
    forEach cbs (subscribe ch1) w2 = Ok tt w3 /\
    notify ch2 (ident it2) w3 = Ok tt w4 /\
    deliveries w4 = deliveries w3.
Proof.
  intros Hg1 Hg2.
  set (ch1 := length (subjects w)).
  set (w1 := set_nextIdent (S (nextIdent w))
               (set_subjects (subjects w ++ [mkSubject []]) w)).
  set (ch2 := length (subjects w1)).
  set (w2 := set_nextIdent (S (nextIdent w1))
               (set_subjects (subjects w1 ++ [mkSubject []]) w1)).
  assert (Hch1 : subjects w2 !! ch1 = Some (mkSubject [])).
  { simpl. rewrite lookup_app_l by (rewrite length_app; simpl; unfold ch1; lia).
    apply list_lookup_middle. reflexivity. }
  assert (Hne : ch1 <> ch2).
  { unfold ch2, ch1. simpl. rewrite length_app. simpl. lia. }
  set (w3 := set_subjects (<[ch1 := mkSubject ([] ++ cbs)]> (subjects w2)) w2).
  assert (Hch2 : subjects w3 !! ch2 = Some (mkSubject [])).
  { simpl. rewrite list_lookup_insert_ne by exact Hne.
    apply list_lookup_middle. reflexivity. }
  eexists _, ch1, w1, _, ch2, w2, w3, _.
  split; [exact (createPaneItem_present gid1 init1 w g1 Hg1)|].
  split; [reflexivity|].
  split; [exact (createPaneItem_present gid2 init2 w1 g2 Hg2)|].
  split; [reflexivity|].
  split; [simpl; lia|]. split; [exact Hne|].
  split; [exact (subscribe_all ch1 cbs w2 _ Hch1)|].
  split; [exact (notify_eq ch2 _ w3 _ Hch2)|].
  simpl. now rewrite app_nil_r.
Qed.

Lemma createPaneItem_channels_are_separate_witness :
  exists it1 ch1 w1 it2 ch2 w2 w3 w4,
    createPaneItem "clock" JNull Samples.world0 = Ok (Some it1) w1 /\
    body it1 = Component Samples.clock JNull ch1 /\
    createPaneItem "counter" (JNum 2) w1 = Ok (Some it2) w2 /\
    body it2 = Component Samples.counter (JNum 2) ch2 /\
    ident it1 <> ident it2 /\ ch1 <> ch2 /\
    forEach [10; 11] (subscribe ch1) w2 = Ok tt w3 /\
    notify ch2 (ident it2) w3 = Ok tt w4 /\
    deliveries w4 = deliveries w3.
Proof.
  apply (createPaneItem_channels_are_separate
           Samples.world0 "clock" "counter" JNull (JNum 2) Samples.clock Samples.counter
           [10; 11]).
  - vm_compute. reflexivity.
  - vm_compute. reflexivity.
Defined.



(** X18: retrying works.  A placeholder that a first pass leaves in
    place because its gadget is not registered is replaced, in its slot,
    by a later pass made once the gadget is registered (the panes being
    as the first pass left them). *)
Theorem replacePlaceholders_retry
    (w : World) (k i : nat) (q : Pane) (item : Item) (gid : string) (raw : JsValue) :
  wfWorld w ->
  panes w !! k = Some q ->
  items q !! i = Some item ->
  body item = Placeholder gid raw ->
  gadgets w !! gid = None ->
  exists w1,
    replacePlaceholders w = Ok tt w1 /\
    forall w2 g,
      panes w2 = panes w1 -> nextIdent w1 <= nextIdent w2 ->
      gadgets w2 !! gid = Some g ->
      exists w3 q3 real init ch,
        replacePlaceholders w2 = Ok tt w3 /\
        panes w3 !! k = Some q3 /\
        items q3 !! i = Some real /\
        body real = Component g init ch.
Proof.
  intros Hwf Hq Hi Hbody Hg.
  destruct (replacePlaceholders_resolves w Hwf) as (w1 & Hrun & _ & Hwf1 & Hpanes).
  exists w1. split; [exact Hrun|].
  intros w2 g Hp2 Hn2 Hg2.
  destruct (Hpanes k q Hq) as (q1 & Hq1 & Hres).
  destruct (Forall2_lookup_l _ _ _ _ _ Hres Hi) as (b & Hb & Hab).
  assert (b = item) as ->.
  { apply (resolves_settled_eq (gadgets w)); [|exact Hab].
    unfold settled. now rewrite Hbody. }
  assert (Hwf2 : wfWorld w2).
  { intros j p Hj. rewrite Hp2 in Hj. eapply wfPane_mono; [exact Hn2|]. exact (Hwf1 j p Hj). }
  destruct (replacePlaceholders_resolves w2 Hwf2) as (w3 & Hrun2 & _ & _ & Hpanes2).
  destruct (Hpanes2 k q1 ltac:(now rewrite Hp2)) as (q3 & Hq3 & Hres2).
  destruct (Forall2_lookup_l _ _ _ _ _ Hres2 Hb) as (real & Hreal & Hab2).
  unfold resolves in Hab2. rewrite Hbody, Hg2 in Hab2. destruct Hab2 as [ch Hch].
  eexists w3, q3, real, _, ch. repeat split; eassumption.
Qed.

Lemma replacePlaceholders_retry_witness :
  exists w1,
    replacePlaceholders Samples.world0 = Ok tt w1 /\
    forall w2 g,
      panes w2 = panes w1 -> nextIdent w1 <= nextIdent w2 ->
      gadgets w2 !! "missing" = Some g ->
      exists w3 q3 real init ch,
        replacePlaceholders w2 = Ok tt w3 /\
        panes w3 !! 1 = Some q3 /\
        items q3 !! 1 = Some real /\
        body real = Component g init ch.
Proof.
  apply (replacePlaceholders_retry Samples.world0 1 1 Samples.pane1 Samples.itemD
           "missing" JNull).
  - exact world0_wf.
  - reflexivity.
  - reflexivity.
  - reflexivity.
  - vm_compute. reflexivity.
Defined.

End CommandExtras.
